(** * tabirun/docs: reading-position and navigation synchronisation

    A shallow embedding of the two stateful components of the documentation
    site, the [SideNav] component (the collapsible navigation drawer, second
    module of [components/link.tsx]) and the [ArticleToc] component of
    [components/article-toc.tsx] (the table of contents), together with the
    few browser facilities they call: regular-expression replacement on
    strings, the element list of the document, the session history and the
    console.

    Conventions.
    - A JavaScript string is a [string]; each character stands for one code
      unit in the range U+0000..U+00FF.
    - [undefined] and [null] are [None].
    - A hook state written by a setter and read by the next render is a
      record field; a handler that closes over a rendered value takes the
      rendered state as argument. *)

From Stdlib Require Import ZArith Ascii String Sorted.
From stdpp Require Import base option list strings gmap.

Local Open Scope string_scope.
Local Open Scope list_scope.

(** ** JavaScript string primitives used by the components *)
Module JS.

(** The character [/]. *)
Definition isSlash (c : ascii) : bool := Ascii.eqb c "/"%char.

(** [allSlashes s]: [s] is matched in full by the pattern [\/+$] anchored
    at its first character, i.e. it is a non-empty run of slashes. *)
Fixpoint allSlashes (s : string) : bool :=
  match s with
  | EmptyString => false
  | String c EmptyString => isSlash c
  | String c r => isSlash c && allSlashes r
  end.

(** [s.replace(/\/+$/, E)] with [E] the empty string: the pattern has no
    [g] flag, so the leftmost match is replaced.  A match starting at
    position [i] exists exactly if the suffix from [i] is a non-empty run of
    slashes. *)
Fixpoint replaceTrailingSlashes (s : string) : string :=
  match s with
  | EmptyString => EmptyString
  | String c r =>
      if allSlashes s then EmptyString
      else String c (replaceTrailingSlashes r)
  end.

(** [n] slashes in a row. *)
Fixpoint slashes (n : nat) : string :=
  match n with
  | O => EmptyString
  | S k => String "/"%char (slashes k)
  end.

(** [s.endsWith("/")]. *)
Fixpoint endsWithSlash (s : string) : bool :=
  match s with
  | EmptyString => false
  | String c EmptyString => isSlash c
  | String _ r => endsWithSlash r
  end.

(** Strict equality [===] on values of type [string | undefined]. *)
Definition strictEq (a b : option string) : bool :=
  match a, b with
  | Some x, Some y => String.eqb x y
  | None, None => true
  | _, _ => false
  end.

(** A string is falsy exactly if it is empty. *)
Definition truthy (s : string) : bool :=
  match s with
  | EmptyString => false
  | String _ _ => true
  end.

(** [x || E] for [x : string | null | undefined], with [E] the empty
    string. *)
Definition orEmpty (x : option string) : string :=
  match x with
  | Some s => if truthy s then s else EmptyString
  | None => EmptyString
  end.

(** Code unit of a character. *)
Definition code (c : ascii) : nat := nat_of_ascii c.

Definition inRange (lo hi : nat) (c : ascii) : bool :=
  (lo <=? code c)%nat && (code c <=? hi)%nat.

(** [String.prototype.toLowerCase] on one code unit below U+0100: the
    letters A-Z, and the Latin-1 capitals U+00C0..U+00DE other than the
    multiplication sign U+00D7, move up by 32. *)
Definition lowerChar (c : ascii) : ascii :=
  if inRange 65 90 c
     || (inRange 192 222 c && negb (code c =? 215)%nat)
  then ascii_of_nat (code c + 32)
  else c.

Fixpoint toLowerCase (s : string) : string :=
  match s with
  | EmptyString => EmptyString
  | String c r => String (lowerChar c) (toLowerCase r)
  end.

(** The class [\w]: [A-Za-z0-9_]. *)
Definition isWord (c : ascii) : bool :=
  inRange 65 90 c || inRange 97 122 c || inRange 48 57 c
  || (code c =? 95)%nat.

(** The class [\s] below U+0100: tab, line feed, vertical tab, form feed,
    carriage return, space and no-break space. *)
Definition isSpace (c : ascii) : bool :=
  inRange 9 13 c || (code c =? 32)%nat || (code c =? 160)%nat.

Definition isHyphen (c : ascii) : bool := Ascii.eqb c "-"%char.

(** [s.replace(/[^\w\s-]/g, E)] with [E] the empty string: every
    character outside the three classes is dropped. *)
Fixpoint stripNonWord (s : string) : string :=
  match s with
  | EmptyString => EmptyString
  | String c r =>
      if isWord c || isSpace c || isHyphen c
      then String c (stripNonWord r)
      else stripNonWord r
  end.

(** [s.replace(/\s+/g, "-")]: every maximal run of white space becomes one
    hyphen.  [inRun] tells that the previous character was white space and
    the hyphen for the current run is already out. *)
Fixpoint hyphenateFrom (inRun : bool) (s : string) : string :=
  match s with
  | EmptyString => EmptyString
  | String c r =>
      if isSpace c
      then if inRun then hyphenateFrom true r
           else String "-"%char (hyphenateFrom true r)
      else String c (hyphenateFrom false r)
  end.

Definition hyphenateSpaces (s : string) : string := hyphenateFrom false s.

(** [s.charAt(i)]: the one-character string at [i], or the empty string
    out of range. *)
Fixpoint charAt (i : nat) (s : string) : string :=
  match s, i with
  | EmptyString, _ => EmptyString
  | String c _, O => String c EmptyString
  | String _ r, S k => charAt k r
  end.

(** The values of type [number] that the components produce. *)
Inductive number : Type :=
| NaN
| Int (z : Z).

Definition isDigit (c : ascii) : bool := inRange 48 57 c.

Fixpoint skipSpaces (s : string) : string :=
  match s with
  | String c r => if isSpace c then skipSpaces r else s
  | EmptyString => EmptyString
  end.

(** Value of the longest prefix of decimal digits, with the number of
    digits read; [acc] is the value read so far. *)
Fixpoint digitsPrefix (acc : Z) (n : nat) (s : string) : Z * nat :=
  match s with
  | String c r =>
      if isDigit c
      then digitsPrefix (10 * acc + Z.of_nat (code c - 48)) (S n) r
      else (acc, n)
  | EmptyString => (acc, n)
  end.

(** [parseInt(s)] without a radix: leading white space, an optional sign
    and the longest run of decimal digits; [NaN] when there is no digit.
    (The hexadecimal prefix needs two characters and is left out: the
    component applies [parseInt] to the result of [charAt].) *)
Definition parseInt (s : string) : number :=
  let t := skipSpaces s in
  let '(neg, u) :=
    match t with
    | String "-"%char r => (true, r)
    | String "+"%char r => (false, r)
    | _ => (false, t)
    end in
  match digitsPrefix 0 0 u with
  | (_, O) => NaN
  | (v, S _) => Int (if neg then - v else v)%Z
  end.

(** [a - b] on [number]. *)
Definition sub (a : number) (b : Z) : number :=
  match a with
  | NaN => NaN
  | Int z => Int (z - b)
  end.

(** The double-quote character as a string. *)
Definition dquote : string := String (ascii_of_nat 34) EmptyString.

End JS.

(** ** The [SideNav] component *)
Module SideNav.

(** [const normalizePath = (path?: string) =>
      path === "/" ? "/" : path?.replace(/\/+$/, E)], [E] the empty
    string. *)
Definition normalizePath (path : option string) : option string :=
  if JS.strictEq path (Some "/") then Some "/"
  else match path with
       | Some p => Some (JS.replaceTrailingSlashes p)
       | None => None
       end.

(** Single navigation item with label and link. *)
Record NavItem : Type := { label : string; href : string }.

(** Group of navigation items under a section title. *)
Record NavGroup : Type := { title : string; items : list NavItem }.

(** Navigation entry: either a single item or a group. *)
Inductive NavEntry : Type :=
| Item (i : NavItem)
| Group (g : NavGroup).

(** Type guard: the entry has the keys [title] and [items]. *)
Definition isNavGroup (entry : NavEntry) : bool :=
  match entry with
  | Group _ => true
  | Item _ => false
  end.

(** What the component reads from [globalThis]: [location.pathname] and
    the viewport width in CSS pixels. *)
Record Browser : Type := { pathname : string; innerWidth : Z }.

(** [globalThis.matchMedia("(min-width: 1024px)").matches]. *)
Definition matchesMinWidth1024 (b : Browser) : bool :=
  (1024 <=? innerWidth b)%Z.

(** The two [useState] cells. *)
Record State : Type := { isOpen : bool; currentPath : option string }.

(** [useState(false)] and [useState<string>()]. *)
Definition initialState : State :=
  {| isOpen := false; currentPath := None |}.

Definition setIsOpen (v : bool) (s : State) : State :=
  {| isOpen := v; currentPath := currentPath s |}.

Definition setCurrentPath (v : string) (s : State) : State :=
  {| isOpen := isOpen s; currentPath := Some v |}.

(** A mounted component: the state its last render saw (the one that the
    handlers passed as props close over), the current hook cells, whether
    the effects of the first render have installed the listeners, and the
    [isOpen] that the installed [keydown] listener closes over.  That
    listener is replaced by the third effect, which runs after a render and
    not during it. *)
Record Instance : Type :=
  { rendered : State; hooks : State; listening : bool;
    handlerIsOpen : bool }.

(** The first call of the component function. *)
Definition firstRender : Instance :=
  {| rendered := initialState; hooks := initialState; listening := false;
     handlerIsOpen := false |}.

(** Body of the first [useEffect], run once after the first render: it
    stores the pathname, reads the media query and subscribes to its
    [change] event. *)
Definition mountEffect (b : Browser) (i : Instance) : Instance :=
  {| rendered := rendered i;
     hooks := setIsOpen (matchesMinWidth1024 b)
                (setCurrentPath (pathname b) (hooks i));
     listening := true;
     handlerIsOpen := handlerIsOpen i |}.

(** Body of the third [useEffect], with dependency [isOpen]: the [keydown]
    listener is removed and added again, closing over the [isOpen] of the
    render whose effect this is. *)
Definition keyEffect (i : Instance) : Instance :=
  {| rendered := rendered i;
     hooks := hooks i;
     listening := listening i;
     handlerIsOpen := isOpen (rendered i) |}.

(** [const toggleNav = () => { setIsOpen(!isOpen); }]: [isOpen] is the
    value of the render that created the handler. *)
Definition toggleNav (i : Instance) : Instance :=
  {| rendered := rendered i;
     hooks := setIsOpen (negb (isOpen (rendered i))) (hooks i);
     listening := listening i;
     handlerIsOpen := handlerIsOpen i |}.

(** [handleKeyDown]: [if (e.key === "Escape" && isOpen) setIsOpen(false)],
    [isOpen] being the value the installed listener closes over. *)
Definition handleKeyDown (key : string) (i : Instance) : Instance :=
  if String.eqb key "Escape" && handlerIsOpen i
  then {| rendered := rendered i;
          hooks := setIsOpen false (hooks i);
          listening := listening i;
          handlerIsOpen := handlerIsOpen i |}
  else i.

(** [handleChange]: [setIsOpen(e.matches)]. *)
Definition handleChange (matches : bool) (i : Instance) : Instance :=
  {| rendered := rendered i;
     hooks := setIsOpen matches (hooks i);
     listening := listening i;
     handlerIsOpen := handlerIsOpen i |}.

(** A re-render reads the hook cells; the handlers passed as props are
    replaced with it, the [keydown] listener is not. *)
Definition rerender (i : Instance) : Instance :=
  {| rendered := hooks i; hooks := hooks i; listening := listening i;
     handlerIsOpen := handlerIsOpen i |}.

Inductive Event : Type :=
| Mount (b : Browser)        (* the effects of the first render run *)
| Rerender
| ToggleClick                (* click on the toggle button *)
| OverlayClick               (* click on the overlay *)
| KeyDown (key : string)
| MediaChange (matches : bool)
| Effects.                   (* the effects of the last re-render run *)

(** Delivery of one event.  The overlay is in the tree only when the last
    render saw [isOpen]; the key and media-query listeners exist once the
    effects of the first render have run, which they do once; after a later
    render only the third effect runs again. *)
Definition step (i : Instance) (e : Event) : Instance :=
  match e with
  | Mount b => if listening i then i else keyEffect (mountEffect b i)
  | Rerender => rerender i
  | ToggleClick => toggleNav i
  | OverlayClick => if isOpen (rendered i) then toggleNav i else i
  | KeyDown key => if listening i then handleKeyDown key i else i
  | MediaChange m => if listening i then handleChange m i else i
  | Effects => if listening i then keyEffect i else i
  end.

Definition run (i : Instance) (es : list Event) : Instance :=
  foldl step i es.

(** The component after its first render and the effects of that render,
    in browser [b]. *)
Definition mounted (b : Browser) : Instance :=
  keyEffect (mountEffect b firstRender).

(** [const isActive = (href: string) =>
      normalizePath(currentPath) === normalizePath(href)]. *)
Definition isActive (s : State) (href : string) : bool :=
  JS.strictEq (normalizePath (currentPath s)) (normalizePath (Some href)).

(** The parts of the rendered tree that depend on the state. *)
Record LinkView : Type :=
  { linkHref : string; linkLabel : string; linkActive : bool }.

Inductive EntryView : Type :=
| ItemView (l : LinkView)
| GroupView (heading : string) (links : list LinkView).

Record View : Type :=
  { toggleLabel : string;       (* aria-label of the toggle button *)
    asideDisplay : string;      (* display classes of the aside *)
    entries : list EntryView;
    overlay : bool }.           (* the mobile overlay is rendered *)

Definition renderLink (s : State) (item : NavItem) : LinkView :=
  {| linkHref := href item;
     linkLabel := label item;
     linkActive := isActive s (href item) |}.

Definition renderEntry (s : State) (entry : NavEntry) : EntryView :=
  match entry with
  | Group g => GroupView (title g) (map (renderLink s) (items g))
  | Item i => ItemView (renderLink s i)
  end.

(** The component function [SideNav({ items })] on state [s]. *)
Definition render (navItems : list NavEntry) (s : State) : View :=
  {| toggleLabel := if isOpen s then "Close navigation" else "Open navigation";
     asideDisplay := if isOpen s then "block" else "hidden lg:block";
     entries := map (renderEntry s) navItems;
     overlay := isOpen s |}.

(** The links of a view that are marked active, groups flattened. *)
Definition activeLinks (v : View) : list string :=
  flat_map
    (fun ev =>
       match ev with
       | ItemView l => if linkActive l then [linkHref l] else []
       | GroupView _ ls =>
           map linkHref (List.filter linkActive ls)
       end)
    (entries v).

End SideNav.

(** ** The document, the session history and the console *)
Module DOM.

(** An element, as far as the components look at it.  The document is the
    list of its elements in tree order; [depth] is the number of ancestors,
    so the descendants of an element are the elements that follow it for
    as long as they are deeper.  An element is referred to by its position
    in the list. *)
Record Element : Type :=
  { tagName : string;              (* upper case, as in an HTML document *)
    id : string;                   (* empty when there is no id *)
    textContent : option string;
    depth : nat }.

(** [element.id = v]. *)
Definition setId (v : string) (e : Element) : Element :=
  {| tagName := tagName e; id := v;
     textContent := textContent e; depth := depth e |}.

(** [document.getElementById(x)]: the first element in tree order whose id
    is [x]; an empty id identifies no element. *)
Definition getElementById (doc : list Element) (x : string) : option nat :=
  if JS.truthy x
  then fst <$> list_find (fun e => id e = x) doc
  else None.

(** Number of leading elements of [rest] that are deeper than [d]. *)
Fixpoint subtreeSize (d : nat) (rest : list Element) : nat :=
  match rest with
  | e :: r => if (d <? depth e)%nat then S (subtreeSize d r) else O
  | [] => O
  end.

(** The descendants of the element at [a], in tree order. *)
Definition descendants (doc : list Element) (a : nat) : list nat :=
  match doc !! a with
  | Some e => seq (S a) (subtreeSize (depth e) (drop (S a) doc))
  | None => []
  end.

(** The selector [h1, h2, h3, h4, h5, h6] on a tag name. *)
Definition isHeadingTag (t : string) : bool :=
  existsb (String.eqb t) ["H1"; "H2"; "H3"; "H4"; "H5"; "H6"].

Definition isHeadingAt (doc : list Element) (i : nat) : bool :=
  match doc !! i with
  | Some e => isHeadingTag (tagName e)
  | None => false
  end.

(** [article.querySelectorAll("h1, h2, h3, h4, h5, h6")]. *)
Definition querySelectorAllHeadings
    (doc : list Element) (a : nat) : list nat :=
  List.filter (isHeadingAt doc) (descendants doc a).

(** A URL, split at the fragment.  [fragment] is the fragment as written in
    the URL reference that was given to [pushState]; what the URL parser does
    to it is applied by [parsedFragment] when the fragment is read. *)
Record URL : Type := { base : string; fragment : option string }.

(** C0 controls and space, U+0000 to U+0020. *)
Definition isC0OrSpace (c : ascii) : bool := (JS.code c <=? 32)%nat.

(** The URL parser removes the C0 controls and spaces at the end of its
    input. *)
Fixpoint stripTrailingC0 (s : string) : string :=
  match s with
  | EmptyString => EmptyString
  | String c r =>
      let r' := stripTrailingC0 r in
      if isC0OrSpace c && negb (JS.truthy r') then EmptyString
      else String c r'
  end.

(** It then removes every tab, line feed and carriage return. *)
Fixpoint removeTabNewline (s : string) : string :=
  match s with
  | EmptyString => EmptyString
  | String c r =>
      if (JS.code c =? 9)%nat || (JS.code c =? 10)%nat || (JS.code c =? 13)%nat
      then removeTabNewline r
      else String c (removeTabNewline r)
  end.

(** The fragment percent-encode set: the C0 controls, every code point above
    U+007E, space, double quote, [<], [>] and the backquote. *)
Definition inFragmentEncodeSet (c : ascii) : bool :=
  (JS.code c <=? 32)%nat || (126 <? JS.code c)%nat
  || (JS.code c =? 34)%nat || (JS.code c =? 60)%nat
  || (JS.code c =? 62)%nat || (JS.code c =? 96)%nat.

Definition hexDigit (n : nat) : ascii :=
  if (n <? 10)%nat then ascii_of_nat (48 + n) else ascii_of_nat (55 + n).

(** One byte, percent-encoded with upper-case digits. *)
Definition percentByte (n : nat) : string :=
  String "%"%char
    (String (hexDigit (n / 16)) (String (hexDigit (n mod 16)) EmptyString)).

(** The UTF-8 bytes of a code unit below U+0100, percent-encoded. *)
Definition utf8PercentEncode (c : ascii) : string :=
  if (JS.code c <? 128)%nat then percentByte (JS.code c)
  else percentByte (192 + JS.code c / 64)
       +:+ percentByte (128 + JS.code c mod 64).

Fixpoint percentEncodeFragment (s : string) : string :=
  match s with
  | EmptyString => EmptyString
  | String c r =>
      if inFragmentEncodeSet c
      then utf8PercentEncode c +:+ percentEncodeFragment r
      else String c (percentEncodeFragment r)
  end.

(** The fragment of the URL that the parser makes of the reference
    [#] followed by [f]. *)
Definition parsedFragment (f : string) : string :=
  percentEncodeFragment (removeTabNewline (stripTrailingC0 f)).

(** [location.hash] for a document at [u]: empty when there is no fragment
    or an empty one, else [#] and the parsed fragment. *)
Definition hash (u : URL) : string :=
  match fragment u with
  | Some f =>
      if JS.truthy (parsedFragment f) then "#" +:+ parsedFragment f
      else EmptyString
  | None => EmptyString
  end.

(** The fragments that the URL parser leaves as they are: printable ASCII
    characters outside the fragment percent-encode set. *)
Fixpoint plainFragment (s : string) : bool :=
  match s with
  | EmptyString => true
  | String c r => negb (inFragmentEncodeSet c) && plainFragment r
  end.

(** The session history: its entries, oldest first, and the position of
    the current one. *)
Record History : Type := { entries : list URL; index : nat }.

Definition currentURL (h : History) : option URL := entries h !! index h.

(** [history.length]. *)
Definition historyLength (h : History) : nat := length (entries h).

(** [history.pushState(null, E, "#" + f)], [E] the empty string: the
    entries after the current one are dropped, and a new current entry is
    added whose URL is the current one with fragment [f]. *)
Definition pushStateFragment (f : string) (h : History) : History :=
  match currentURL h with
  | Some u =>
      {| entries := take (S (index h)) (entries h)
                      ++ [{| base := base u; fragment := Some f |}];
         index := S (index h) |}
  | None => h
  end.

(** Everything outside the component that it reads or writes. *)
Record World : Type :=
  { document : list Element;
    history : History;
    console : list string;        (* messages of console.warn, oldest first *)
    scrolls : list nat }.         (* targets of scrollIntoView, oldest first *)

End DOM.

(** ** The [ArticleToc] component *)
Module ArticleToc.

(** Represents a heading in the table of contents. *)
Record TocItem : Type :=
  { id : string; text : string; level : JS.number }.

(** The two [useState] cells. *)
Record State : Type := { tocItems : list TocItem; activeId : string }.

(** [useState<TocItem[]>([])] and [useState<string>(E)], [E] the empty
    string. *)
Definition initialState : State :=
  {| tocItems := []; activeId := EmptyString |}.

Definition setTocItems (v : list TocItem) (s : State) : State :=
  {| tocItems := v; activeId := activeId s |}.

Definition setActiveId (v : string) (s : State) : State :=
  {| tocItems := tocItems s; activeId := v |}.



(** [heading.textContent?.toLowerCase().replace(/[^\w\s-]/g, E)
      .replace(/\s+/g, "-") || E], [E] the empty string. *)
Definition slugify (textContent : option string) : string :=
  JS.orEmpty
    (option_map
       (fun t => JS.hyphenateSpaces (JS.stripNonWord (JS.toLowerCase t)))
       textContent).

(** [if (!heading.id) heading.id = slug]. *)
Definition ensureId (e : DOM.Element) : DOM.Element :=
  if JS.truthy (DOM.id e) then e
  else DOM.setId (slugify (DOM.textContent e)) e.

(** The record pushed for a heading, read after its id is ensured. *)
Definition itemOf (e : DOM.Element) : TocItem :=
  {| id := DOM.id e;
     text := JS.orEmpty (DOM.textContent e);
     level := JS.parseInt (JS.charAt 1 (DOM.tagName e)) |}.

(** Body of [headings.forEach((heading) => ...)] on the document and the
    array [items]. *)
Definition visitHeading
    (acc : list DOM.Element * list TocItem) (h : nat)
  : list DOM.Element * list TocItem :=
  match acc.1 !! h with
  | Some e =>
      let e' := ensureId e in
      (<[h := e']> acc.1, acc.2 ++ [itemOf e'])
  | None => acc
  end.

(** A mounted component: the hook cells, the elements registered with the
    intersection observer, and whether the effect has run. *)
Record Instance : Type :=
  { hooks : State; observed : list nat; mounted : bool }.

Definition firstRender : Instance :=
  {| hooks := initialState; observed := []; mounted := false |}.

Definition warning (articleId : string) : string :=
  "Article with id " +:+ JS.dquote +:+ articleId +:+ JS.dquote
  +:+ " not found".

(** Body of the [useEffect]. *)
Definition effect (articleId : string) (w : DOM.World) (i : Instance)
  : DOM.World * Instance :=
  match DOM.getElementById (DOM.document w) articleId with
  | None =>
      ({| DOM.document := DOM.document w;
          DOM.history := DOM.history w;
          DOM.console := DOM.console w ++ [warning articleId];
          DOM.scrolls := DOM.scrolls w |},
       {| hooks := hooks i; observed := observed i; mounted := true |})
  | Some article =>
      let headings := DOM.querySelectorAllHeadings (DOM.document w) article in
      let '(doc, items) := foldl visitHeading (DOM.document w, []) headings in
      ({| DOM.document := doc;
          DOM.history := DOM.history w;
          DOM.console := DOM.console w;
          DOM.scrolls := DOM.scrolls w |},
       {| hooks := setTocItems items (hooks i);
          observed := headings;
          mounted := true |})
  end.

(** One entry of an intersection notification. *)
Record IntersectionObserverEntry : Type :=
  { isIntersecting : bool; target : nat }.

(** Body of [entries.forEach((entry) => ...)] in the observer callback:
    [if (entry.isIntersecting) setActiveId(entry.target.id)]. *)
Definition onEntry (doc : list DOM.Element) (s : State)
    (entry : IntersectionObserverEntry) : State :=
  if isIntersecting entry
  then match doc !! target entry with
       | Some el => setActiveId (DOM.id el) s
       | None => s
       end
  else s.

(** The observer callback on one batch. *)
Definition observerCallback (doc : list DOM.Element)
    (batch : list IntersectionObserverEntry) (s : State) : State :=
  foldl (onEntry doc) s batch.

(** [handleClick(e, id)]: the default action is prevented; if the element
    exists it is scrolled into view and the hash is pushed. *)
Definition handleClick (x : string) (w : DOM.World) : DOM.World :=
  match DOM.getElementById (DOM.document w) x with
  | Some element =>
      {| DOM.document := DOM.document w;
         DOM.history := DOM.pushStateFragment x (DOM.history w);
         DOM.console := DOM.console w;
         DOM.scrolls := DOM.scrolls w ++ [element] |}
  | None => w
  end.

(** One rendered list entry. *)
Record EntryView : Type :=
  { entryKey : string;
    indentSteps : JS.number;      (* padding-left, in units of 0.75rem *)
    entryHref : string;
    entryActive : bool;           (* the active classes are applied *)
    entryText : string }.

Definition renderItem (s : State) (item : TocItem) : EntryView :=
  {| entryKey := id item;
     indentSteps := JS.sub (level item) 1;
     entryHref := "#" +:+ id item;
     entryActive := String.eqb (activeId s) (id item);
     entryText := text item |}.

(** The component function: [null] when there is no item, else the aside
    with one entry per item. *)
Definition render (s : State) : option (list EntryView) :=
  if (length (tocItems s) =? 0)%nat then None
  else Some (map (renderItem s) (tocItems s)).

(** The entries of a rendering that are marked active. *)
Definition activeEntries (v : option (list EntryView)) : list EntryView :=
  match v with
  | Some es => List.filter entryActive es
  | None => []
  end.

(** The component in its world. *)
Record System : Type := { world : DOM.World; inst : Instance }.

Inductive Event : Type :=
| Mount                                         (* the effect runs *)
| Intersect (batch : list IntersectionObserverEntry)
| Click (k : nat).                              (* click on the k-th entry *)

(** The observer reports only on elements registered with it. *)
Definition deliverable (i : Instance)
    (batch : list IntersectionObserverEntry) : bool :=
  forallb (fun e => existsb (Nat.eqb (target e)) (observed i)) batch.

(** Delivery of one event to a component with a fixed [articleId].  The
    effect runs once; a batch reaches the callback only if its targets are
    observed; a click needs a rendered entry. *)
Definition step (articleId : string) (s : System) (e : Event) : System :=
  match e with
  | Mount =>
      if mounted (inst s) then s
      else let '(w, i) := effect articleId (world s) (inst s) in
           {| world := w; inst := i |}
  | Intersect batch =>
      if deliverable (inst s) batch
      then {| world := world s;
              inst := {| hooks := observerCallback
                                    (DOM.document (world s)) batch
                                    (hooks (inst s));
                         observed := observed (inst s);
                         mounted := mounted (inst s) |} |}
      else s
  | Click k =>
      match tocItems (hooks (inst s)) !! k with
      | Some item => {| world := handleClick (id item) (world s);
                        inst := inst s |}
      | None => s
      end
  end.

Definition start (w : DOM.World) : System :=
  {| world := w; inst := firstRender |}.

Definition run (articleId : string) (w : DOM.World) (es : list Event)
  : System :=
  foldl (step articleId) (start w) es.

End ArticleToc.

(** ** Scenarios of the specification *)

(** Scenario C of the specification: a home link and one group. *)
Definition scenarioC_items : list SideNav.NavEntry :=
  [ SideNav.Item {| SideNav.label := "Home"; SideNav.href := "/" |};
    SideNav.Group
      {| SideNav.title := "Guides";
         SideNav.items :=
           [ {| SideNav.label := "Start"; SideNav.href := "/start" |} ] |} ].

Definition stateAt (isOpen : bool) (path : string) : SideNav.State :=
  {| SideNav.isOpen := isOpen; SideNav.currentPath := Some path |}.


(** A phone-sized and a desktop-sized browser on the page [/start/]. *)
Definition narrowBrowser : SideNav.Browser :=
  {| SideNav.pathname := "/start/"; SideNav.innerWidth := 390 |}.

Definition wideBrowser : SideNav.Browser :=
  {| SideNav.pathname := "/start/"; SideNav.innerWidth := 1280 |}.

(** Every character of [s] satisfies [p]. *)
Fixpoint everyChar (p : ascii -> bool) (s : string) : bool :=
  match s with
  | EmptyString => true
  | String c r => p c && everyChar p r
  end.

(** The characters a slug is made of: [a-z0-9_-]. *)
Definition isSlugChar (c : ascii) : bool :=
  JS.inRange 97 122 c || JS.inRange 48 57 c || (JS.code c =? 95)%nat
  || JS.isHyphen c.












(** The tag name of a heading of level [n]: [H1] to [H6]. *)
Definition headingTagName (n : nat) : string :=
  String "H"%char (String (ascii_of_nat (48 + n)) EmptyString).

Definition element (tag ident txt : string) (d : nat) : DOM.Element :=
  {| DOM.tagName := tag; DOM.id := ident;
     DOM.textContent := Some txt; DOM.depth := d |}.

(** A world with document [doc], one history entry, a silent console. *)
Definition worldOf (doc : list DOM.Element) : DOM.World :=
  {| DOM.document := doc;
     DOM.history :=
       {| DOM.entries :=
            [ {| DOM.base := "https://docs.example/docs/getting-started";
                 DOM.fragment := None |} ];
          DOM.index := 0 |};
     DOM.console := [];
     DOM.scrolls := [] |}.

(** Scenario B: the article [tabi-article] with the headings Intro (h1) and
    Setup (h2), neither with an id, and a paragraph between them. *)
Definition scenarioB_doc : list DOM.Element :=
  [ element "BODY" EmptyString "IntroHelloSetup" 0;
    element "ARTICLE" "tabi-article" "IntroHelloSetup" 1;
    element "H1" EmptyString "Intro" 2;
    element "P" EmptyString "Hello" 2;
    element "H2" EmptyString "Setup" 2;
    element "FOOTER" EmptyString EmptyString 1 ].

(** The headings the effect finds for [articleId]: those of the container,
    none when the container is missing. *)
Definition headingsOfArticle
    (doc : list DOM.Element) (articleId : string) : list nat :=
  match DOM.getElementById doc articleId with
  | Some article => DOM.querySelectorAllHeadings doc article
  | None => []
  end.

(** The arguments of the calls of [setActiveId] that the observer callback
    makes on a batch, in the order of the calls. *)
Definition activeIdWrites (doc : list DOM.Element)
    (batch : list ArticleToc.IntersectionObserverEntry) : list string :=
  omap
    (fun e =>
       if ArticleToc.isIntersecting e
       then DOM.id <$> doc !! ArticleToc.target e
       else None)
    batch.

(** An article whose two headings have the same text. *)
Definition twinHeadings_doc : list DOM.Element :=
  [ element "ARTICLE" "tabi-article" "IntroIntro" 0;
    element "H2" EmptyString "Intro" 1;
    element "H2" EmptyString "Intro" 1 ].

(** An article with a heading made of punctuation only. *)
Definition punctuation_doc : list DOM.Element :=
  [ element "ARTICLE" "tabi-article" "Overview?!" 0;
    element "H1" EmptyString "Overview" 1;
    element "H2" EmptyString "?!" 1 ].

(** An article whose heading has the id [intro] already. *)
Definition explicitId_doc : list DOM.Element :=
  [ element "ARTICLE" "tabi-article" "Intro" 0;
    element "H1" "intro" "Intro" 1 ].

(** The invariant of the table of contents: before the effect has run the
    component is as first rendered; the observed elements are the headings
    of the outline, each carrying the id of its record; and the active id is
    empty or the id of a record. *)
Definition tocInvariant (s : ArticleToc.System) : Prop :=
  (ArticleToc.mounted (ArticleToc.inst s) = false ->
   ArticleToc.inst s = ArticleToc.firstRender)
  /\ Forall2
       (fun h item =>
          exists el, DOM.document (ArticleToc.world s) !! h = Some el
                     /\ DOM.id el = ArticleToc.id item)
       (ArticleToc.observed (ArticleToc.inst s))
       (ArticleToc.tocItems (ArticleToc.hooks (ArticleToc.inst s)))
  /\ (ArticleToc.activeId (ArticleToc.hooks (ArticleToc.inst s)) = EmptyString
      \/ exists item,
           item ∈ ArticleToc.tocItems (ArticleToc.hooks (ArticleToc.inst s))
           /\ ArticleToc.id item
              = ArticleToc.activeId (ArticleToc.hooks (ArticleToc.inst s))).

(** An event that reports no intersection: a click, or a batch none of
    whose entries is intersecting. *)
Definition quietEvent (e : ArticleToc.Event) : bool :=
  match e with
  | ArticleToc.Intersect batch =>
      negb (existsb ArticleToc.isIntersecting batch)
  | _ => true
  end.

(** The first of the twin headings enters the trigger region. *)
Definition twinHeadings_events : list ArticleToc.Event :=
  [ ArticleToc.Mount;
    ArticleToc.Intersect
      [ {| ArticleToc.isIntersecting := true; ArticleToc.target := 1 |} ] ].


(** ** More of the [SideNav] component *)
Module SideNavLinks.

(** The anchors of a rendered navigation, in tree order, groups flattened. *)
Definition allLinks (v : SideNav.View) : list SideNav.LinkView :=
  flat_map
    (fun ev =>
       match ev with
       | SideNav.ItemView l => [l]
       | SideNav.GroupView _ ls => ls
       end)
    (SideNav.entries v).

(** The [href]s of the navigation entries, in the same order. *)
Definition allHrefs (navItems : list SideNav.NavEntry) : list string :=
  flat_map
    (fun entry =>
       match entry with
       | SideNav.Item i => [SideNav.href i]
       | SideNav.Group g => map SideNav.href (SideNav.items g)
       end)
    navItems.

(** The second [useEffect], up to the measurement: when [currentPath] is
    truthy, [document.querySelector] looks for the first anchor under
    [aside nav] whose [href] attribute is the normalised path, character by
    character.  [anchors] holds the [href] attributes of those anchors in
    tree order.  (A pathname holds no quote and no backslash, so the
    selector built from it is well formed.) *)
Definition findActiveLink (anchors : list string)
    (currentPath : option string) : option nat :=
  match currentPath with
  | Some p =>
      if JS.truthy p
      then match SideNav.normalizePath (Some p) with
           | Some q => fst <$> list_find (fun h => h = q) anchors
           | None => None
           end
      else None
  | None => None
  end.

(** [navigationItems] of [pages/docs/_layout.tsx]. *)
Definition navItem (l h : string) : SideNav.NavItem :=
  {| SideNav.label := l; SideNav.href := h |}.

Definition navGroup (t : string) (links : list SideNav.NavItem)
  : SideNav.NavEntry :=
  SideNav.Group {| SideNav.title := t; SideNav.items := links |}.

Definition navigationItems : list SideNav.NavEntry :=
  [ SideNav.Item (navItem "Home" "/");
    SideNav.Item (navItem "Getting Started" "/docs/getting-started");
    navGroup "Tabirun App"
      [ navItem "Installation" "/docs/app/installation";
        navItem "Philosophy" "/docs/app/philosophy" ];
    navGroup "Core Concepts"
      [ navItem "TabiApp" "/docs/app/core/tabi-app";
        navItem "TabiContext" "/docs/app/core/tabi-context";
        navItem "Routing" "/docs/app/core/routing";
        navItem "Request & Response" "/docs/app/core/request-response";
        navItem "Middleware" "/docs/app/core/middleware";
        navItem "Error Handling" "/docs/app/core/error-handling" ];
    navGroup "Middleware"
      [ navItem "CORS" "/docs/app/middleware/cors";
        navItem "CSRF" "/docs/app/middleware/csrf";
        navItem "CSP" "/docs/app/middleware/csp";
        navItem "Security Headers" "/docs/app/middleware/security-headers";
        navItem "Rate Limiting" "/docs/app/middleware/rate-limit";
        navItem "Body Size" "/docs/app/middleware/body-size";
        navItem "Timeout" "/docs/app/middleware/timeout";
        navItem "Compression" "/docs/app/middleware/compression";
        navItem "Cache Control" "/docs/app/middleware/cache-control";
        navItem "Request ID" "/docs/app/middleware/request-id";
        navItem "Serve Files" "/docs/app/middleware/serve-files";
        navItem "Validation" "/docs/app/middleware/validate" ];
    navGroup "Utilities"
      [ navItem "Cookies" "/docs/app/utilities/cookies" ];
    navGroup "Guides"
      [ navItem "Testing" "/docs/app/guides/testing";
        navItem "Deployment" "/docs/app/guides/deploy" ];
    navGroup "Tabirun Pages"
      [ navItem "Getting Started" "/docs/pages/getting-started" ];
    navGroup "Pages Concepts"
      [ navItem "Pages & Routing" "/docs/pages/pages-and-routing";
        navItem "Layouts" "/docs/pages/layouts";
        navItem "Markdown" "/docs/pages/markdown";
        navItem "Components" "/docs/pages/components";
        navItem "Styling" "/docs/pages/styling";
        navItem "Configuration" "/docs/pages/configuration";
        navItem "Build & Deploy" "/docs/pages/build-and-deploy" ] ].

End SideNavLinks.

(** ** The [ToggleTheme] component *)
Module ToggleTheme.

Inductive Theme : Type :=
| light
| dark.

(** The string written for a theme. *)
Definition themeName (t : Theme) : string :=
  match t with
  | light => "light"
  | dark => "dark"
  end.

(** What the component reads and writes outside itself: the class list of
    the document element and the local storage. *)
Record Page : Type :=
  { classList : gset string; localStorage : gmap string string }.

(** The state its last render saw, the [useState] cell, and whether the
    effect has run. *)
Record Instance : Type :=
  { rendered : Theme; hooks : Theme; mounted : bool }.

(** [useState<"light" | "dark">("light")]. *)
Definition firstRender : Instance :=
  {| rendered := light; hooks := light; mounted := false |}.

(** Body of the [useEffect]: the theme is read from the class list. *)
Definition effect (p : Page) (i : Instance) : Instance :=
  let isDark := bool_decide ("dark" ∈ classList p) in
  {| rendered := rendered i;
     hooks := if isDark then dark else light;
     mounted := true |}.

(** [toggleTheme]: the new theme is the opposite of the rendered one; it is
    stored in the cell and in the local storage, and the class [dark] is
    added or removed.  (The local storage is taken to accept the write.) *)
Definition toggleTheme (s : Page * Instance) : Page * Instance :=
  let '(p, i) := s in
  let newTheme :=
    match rendered i with
    | light => dark
    | dark => light
    end in
  ({| classList :=
        match newTheme with
        | dark => classList p ∪ {["dark"]}
        | light => classList p ∖ {["dark"]}
        end;
      localStorage := <["theme" := themeName newTheme]> (localStorage p) |},
   {| rendered := rendered i; hooks := newTheme; mounted := mounted i |}).

Inductive Icon : Type :=
| MoonIcon
| SunIcon.

(** The icon inside the button. *)
Definition render (t : Theme) : Icon :=
  match t with
  | light => MoonIcon
  | dark => SunIcon
  end.

Inductive Event : Type :=
| Mount          (* the effect runs *)
| Rerender
| Click.         (* click on the button *)

Definition step (s : Page * Instance) (e : Event) : Page * Instance :=
  match e with
  | Mount => if mounted s.2 then s else (s.1, effect s.1 s.2)
  | Rerender =>
      (s.1, {| rendered := hooks s.2; hooks := hooks s.2;
               mounted := mounted s.2 |})
  | Click => toggleTheme s
  end.

Definition run (p : Page) (es : list Event) : Page * Instance :=
  foldl step (p, firstRender) es.

Definition isClick (e : Event) : bool :=
  match e with
  | Click => true
  | _ => false
  end.

End ToggleTheme.

(** ** Statement helpers *)

(** [n] clicks on the entry with id [x], one after the other. *)
Definition clickTimes (n : nat) (x : string) (w : DOM.World) : DOM.World :=
  Nat.iter n (ArticleToc.handleClick x) w.

(** The record levels a heading can have. *)
Definition levelInRange (item : ArticleToc.TocItem) : Prop :=
  exists n, 1 <= n <= 6 /\ ArticleToc.level item = JS.Int (Z.of_nat n).

(** * Path normalisation and the active navigation entry *)

Lemma allSlashes_cons (c : ascii) (r : string) :
  JS.allSlashes (String c r)
  = JS.isSlash c && (if JS.truthy r then JS.allSlashes r else true).
Proof. destruct r; simpl; [by rewrite andb_true_r | done]. Qed.

Lemma endsWithSlash_cons (c : ascii) (r : string) :
  JS.endsWithSlash (String c r)
  = if JS.truthy r then JS.endsWithSlash r else JS.isSlash c.
Proof. by destruct r. Qed.

Lemma isSlash_true (c : ascii) : JS.isSlash c = true -> c = "/"%char.
Proof. unfold JS.isSlash. apply Ascii.eqb_eq. Qed.

Lemma allSlashes_endsWithSlash (s : string) :
  JS.allSlashes s = true -> JS.endsWithSlash s = true.
Proof.
  induction s as [|c r IH]; [done|].
  rewrite allSlashes_cons, endsWithSlash_cons.
  destruct (JS.truthy r); intros [Hc Hr]%andb_true_iff; auto.
Qed.

Lemma allSlashes_slashes (s : string) :
  JS.allSlashes s = true -> exists n, s = JS.slashes (S n).
Proof.
  induction s as [|c r IH]; [done|].
  rewrite allSlashes_cons. intros [Hc Hr]%andb_true_iff.
  apply isSlash_true in Hc as ->.
  destruct r as [|d r']; [by exists 0%nat|].
  destruct (IH Hr) as [n ->]. by exists (S n).
Qed.

Lemma replaceTrailingSlashes_cons (c : ascii) (r : string) :
  JS.replaceTrailingSlashes (String c r)
  = if JS.allSlashes (String c r) then EmptyString
    else String c (JS.replaceTrailingSlashes r).
Proof. reflexivity. Qed.

Lemma replaceTrailingSlashes_empty (s : string) :
  JS.replaceTrailingSlashes s = EmptyString ->
  s = EmptyString \/ JS.allSlashes s = true.
Proof.
  destruct s as [|c r]; [by left|].
  rewrite replaceTrailingSlashes_cons.
  destruct (JS.allSlashes (String c r)); [by right | done].
Qed.

(** The result of the replacement never ends with a slash. *)
Lemma replaceTrailingSlashes_no_slash (s : string) :
  JS.endsWithSlash (JS.replaceTrailingSlashes s) = false.
Proof.
  induction s as [|c r IH]; [done|].
  rewrite replaceTrailingSlashes_cons.
  destruct (JS.allSlashes (String c r)) eqn:Hall; [done|].
  rewrite endsWithSlash_cons.
  destruct (JS.truthy (JS.replaceTrailingSlashes r)) eqn:Ht; [done|].
  assert (JS.replaceTrailingSlashes r = EmptyString) as Hr
    by (by destruct (JS.replaceTrailingSlashes r)).
  rewrite allSlashes_cons in Hall.
  destruct (JS.isSlash c); [|done]. simpl in Hall.
  apply replaceTrailingSlashes_empty in Hr as [-> | Hr]; [done|].
  rewrite Hr in Hall. by destruct (JS.truthy r).
Qed.

(** A string that does not end with a slash is left alone. *)
Lemma replaceTrailingSlashes_fixed (s : string) :
  JS.endsWithSlash s = false -> JS.replaceTrailingSlashes s = s.
Proof.
  induction s as [|c r IH]; [done|].
  intros Hend. rewrite replaceTrailingSlashes_cons.
  destruct (JS.allSlashes (String c r)) eqn:Hall.
  - apply allSlashes_endsWithSlash in Hall. congruence.
  - f_equal. apply IH. rewrite endsWithSlash_cons in Hend.
    destruct r; [done | exact Hend].
Qed.

(** The replacement removes a run of slashes at the end and nothing else. *)
Lemma replaceTrailingSlashes_split (s : string) :
  exists n, s = JS.replaceTrailingSlashes s +:+ JS.slashes n.
Proof.
  induction s as [|c r [n IH]]; [by exists 0%nat|].
  rewrite replaceTrailingSlashes_cons.
  destruct (JS.allSlashes (String c r)) eqn:Hall.
  - apply allSlashes_slashes in Hall as [k Hk]. by exists (S k).
  - exists n. exact (f_equal (String c) IH).
Qed.

Lemma strictEq_eq (a b : option string) : JS.strictEq a b = true <-> a = b.
Proof.
  destruct a as [x|], b as [y|]; simpl; try (split; congruence).
  rewrite String.eqb_eq. split; congruence.
Qed.

Lemma normalizePath_Some (p : string) :
  SideNav.normalizePath (Some p)
  = Some (if String.eqb p "/" then "/" else JS.replaceTrailingSlashes p).
Proof. unfold SideNav.normalizePath. simpl. by destruct (String.eqb p "/"). Qed.

(** C4: [normalizePath] is idempotent on every string; it keeps the root
    path ["/"], maps ["/docs/"] to ["/docs"], and in general removes a run
    of slashes at the end of its argument and nothing else, leaving a result
    that ends with a slash only when the argument is the root path. *)
Theorem normalizePath_idempotent (p : string) :
  SideNav.normalizePath (SideNav.normalizePath (Some p))
    = SideNav.normalizePath (Some p)
  /\ SideNav.normalizePath (Some "/") = Some "/"
  /\ SideNav.normalizePath (Some "/docs/") = Some "/docs"
  /\ (exists q n, SideNav.normalizePath (Some p) = Some q
                  /\ (p = q +:+ JS.slashes n)
                  /\ (p = "/" \/ JS.endsWithSlash q = false)).
Proof.
  split; [|split; [done|split; [done|]]].
  - rewrite normalizePath_Some.
    destruct (String.eqb p "/") eqn:Hp; [done|].
    rewrite normalizePath_Some.
    pose proof (replaceTrailingSlashes_no_slash p) as Hend.
    destruct (String.eqb (JS.replaceTrailingSlashes p) "/") eqn:Hq.
    + apply String.eqb_eq in Hq. rewrite Hq in Hend. done.
    + by rewrite replaceTrailingSlashes_fixed.
  - rewrite normalizePath_Some.
    destruct (String.eqb p "/") eqn:Hp.
    + apply String.eqb_eq in Hp as ->. exists "/", 0%nat. auto.
    + destruct (replaceTrailingSlashes_split p) as [n Hn].
      exists (JS.replaceTrailingSlashes p), n.
      split; [done|]. split; [done|].
      right. apply replaceTrailingSlashes_no_slash.
Qed.

Lemma normalizePath_root_only (p : string) :
  SideNav.normalizePath (Some p) = Some "/" -> p = "/".
Proof.
  rewrite normalizePath_Some.
  destruct (String.eqb p "/") eqn:Hp; [by apply String.eqb_eq in Hp|].
  intros [= Hq]. pose proof (replaceTrailingSlashes_no_slash p) as Hend.
  rewrite Hq in Hend. done.
Qed.

(** Two strings with the same normal form differ only in the slashes at
    their ends. *)
Lemma normalizePath_same (p h : string) :
  SideNav.normalizePath (Some p) = SideNav.normalizePath (Some h) ->
  exists q m n, p = q +:+ JS.slashes m /\ h = q +:+ JS.slashes n.
Proof.
  intros Heq.
  destruct (String.eqb p "/") eqn:Hp.
  { apply String.eqb_eq in Hp as ->. symmetry in Heq.
    apply normalizePath_root_only in Heq as ->.
    by exists "/", 0%nat, 0%nat. }
  destruct (String.eqb h "/") eqn:Hh.
  { apply String.eqb_eq in Hh as ->.
    apply normalizePath_root_only in Heq as ->.
    by exists "/", 0%nat, 0%nat. }
  rewrite !normalizePath_Some, Hp, Hh in Heq. injection Heq as Heq.
  destruct (replaceTrailingSlashes_split p) as [m Hm].
  destruct (replaceTrailingSlashes_split h) as [n Hn].
  exists (JS.replaceTrailingSlashes p), m, n.
  split; [done|]. by rewrite Heq.
Qed.

(** C7: [isActive(href)] holds exactly if the normalised current path equals
    the normalised [href]; an active entry's [href] differs from the current
    path only in slashes at the end, so a proper prefix such as ["/docs"] of
    ["/docs/getting-started"] is not active; on ["/start/"] the entry
    ["/start"] is active and the entry ["/"] is not. *)
Theorem isActive_exact (s : SideNav.State) (href : string) :
  (SideNav.isActive s href = true
     <-> SideNav.normalizePath (SideNav.currentPath s)
         = SideNav.normalizePath (Some href))
  /\ (SideNav.isActive s href = false
      \/ exists q m n, SideNav.currentPath s = Some (q +:+ JS.slashes m)
                       /\ href = q +:+ JS.slashes n)
  /\ SideNav.isActive (stateAt (SideNav.isOpen s) "/docs/getting-started")
       "/docs" = false
  /\ SideNav.isActive (stateAt (SideNav.isOpen s) "/start/") "/start" = true
  /\ SideNav.isActive (stateAt (SideNav.isOpen s) "/start/") "/" = false
  /\ SideNav.activeLinks
       (SideNav.render scenarioC_items (stateAt (SideNav.isOpen s) "/start/"))
     = ["/start"].
Proof.
  split; [apply strictEq_eq|].
  split; [|by destruct s as [[] ?]].
  destruct (SideNav.isActive s href) eqn:Hact; [right | by left].
  apply strictEq_eq in Hact.
  destruct (SideNav.currentPath s) as [p|];
    [|by rewrite normalizePath_Some in Hact].
  destruct (normalizePath_same p href Hact) as (q & m & n & -> & ->).
  by exists q, m, n.
Qed.

(** * The drawer *)

Lemma run_snoc (i : SideNav.Instance) (es : list SideNav.Event)
    (e : SideNav.Event) :
  SideNav.run i (es ++ [e]) = SideNav.step (SideNav.run i es) e.
Proof. unfold SideNav.run. by rewrite foldl_app. Qed.

Lemma step_listening (i : SideNav.Instance) (e : SideNav.Event) :
  SideNav.listening i = true -> SideNav.listening (SideNav.step i e) = true.
Proof.
  intros Hl. destruct e; simpl; rewrite ?Hl; try done.
  - by destruct (SideNav.isOpen (SideNav.rendered i)).
  - unfold SideNav.handleKeyDown.
    by destruct (String.eqb key "Escape" && SideNav.handlerIsOpen i).
Qed.

(** Once the effects have run the listeners stay installed. *)
Lemma run_listening (es : list SideNav.Event) (i : SideNav.Instance) :
  SideNav.listening i = true -> SideNav.listening (SideNav.run i es) = true.
Proof.
  revert i. induction es as [|e es IH]; intros i Hl; [done|].
  apply (IH (SideNav.step i e)). by apply step_listening.
Qed.

(** C3 fails as stated: on a desktop-sized viewport the media query matches,
    yet the first render sees the drawer closed. *)
Lemma firstRender_wide_is_closed :
  ~ (SideNav.isOpen (SideNav.rendered SideNav.firstRender)
     = SideNav.matchesMinWidth1024 wideBrowser).
Proof. discriminate. Qed.

(** C3, amended: the first render always sees the drawer closed, whatever
    the viewport, and renders the closed drawer; the effect of that render
    reads the media query [(min-width: 1024px)] once, and the render that
    follows sees the drawer open exactly if the viewport is at least 1024
    pixels wide. *)
Theorem initial_drawer_state (b : SideNav.Browser)
    (navItems : list SideNav.NavEntry) :
  SideNav.isOpen (SideNav.rendered SideNav.firstRender) = false
  /\ SideNav.asideDisplay
       (SideNav.render navItems (SideNav.rendered SideNav.firstRender))
     = "hidden lg:block"
  /\ SideNav.overlay
       (SideNav.render navItems (SideNav.rendered SideNav.firstRender))
     = false
  /\ SideNav.isOpen (SideNav.rendered (SideNav.mounted b)) = false
  /\ SideNav.isOpen (SideNav.rendered (SideNav.rerender (SideNav.mounted b)))
     = SideNav.matchesMinWidth1024 b
  /\ (SideNav.matchesMinWidth1024 b = true <-> (1024 <= SideNav.innerWidth b)%Z).
Proof.
  repeat split; try done.
  - unfold SideNav.matchesMinWidth1024. by intros ?%Z.leb_le.
  - unfold SideNav.matchesMinWidth1024. by intros ?%Z.leb_le.
Qed.

(** C5: after any events, a change of the breakpoint leaves the drawer state
    equal to the new breakpoint, in the hook cell and in the next render.
    In particular a drawer opened by hand on a narrow viewport is open after
    the change to wide and closed after the change back to narrow, and a
    closed drawer on a narrow viewport is open after the change to wide. *)
Theorem breakpoint_forces_state (b : SideNav.Browser)
    (es : list SideNav.Event) (m : bool) :
  let i := SideNav.run (SideNav.mounted b) (es ++ [SideNav.MediaChange m]) in
  SideNav.isOpen (SideNav.hooks i) = m
  /\ SideNav.isOpen (SideNav.rendered (SideNav.step i SideNav.Rerender)) = m
  /\ (let opened :=
        SideNav.run (SideNav.mounted narrowBrowser)
          [SideNav.Rerender; SideNav.ToggleClick; SideNav.Rerender] in
      let widened :=
        SideNav.run opened [SideNav.MediaChange true; SideNav.Rerender] in
      let narrowed :=
        SideNav.run widened [SideNav.MediaChange false; SideNav.Rerender] in
      SideNav.isOpen (SideNav.rendered opened) = true
      /\ SideNav.isOpen (SideNav.rendered widened) = true
      /\ SideNav.isOpen (SideNav.rendered narrowed) = false)
  /\ (let closed :=
        SideNav.run (SideNav.mounted narrowBrowser) [SideNav.Rerender] in
      SideNav.isOpen (SideNav.rendered closed) = false
      /\ SideNav.isOpen
           (SideNav.rendered
              (SideNav.run closed [SideNav.MediaChange true; SideNav.Rerender]))
         = true).
Proof.
  intros i.
  assert (SideNav.isOpen (SideNav.hooks i) = m) as Hi.
  { subst i. rewrite run_snoc. simpl.
    by rewrite (run_listening es (SideNav.mounted b)). }
  split; [exact Hi|]. split; [exact Hi|]. by vm_compute.
Qed.

(** * Building the outline *)

Lemma ensureId_idempotent (e : DOM.Element) :
  ArticleToc.ensureId (ArticleToc.ensureId e) = ArticleToc.ensureId e.
Proof.
  unfold ArticleToc.ensureId.
  destruct (JS.truthy (DOM.id e)) eqn:He; [by rewrite He|].
  simpl. by destruct (JS.truthy (ArticleToc.slugify (DOM.textContent e))).
Qed.

(** The loop over the headings: every visited element has its id ensured,
    the other elements are untouched, and one record is pushed per visited
    element, in the order of the visit. *)
Lemma visitHeading_fold (doc0 : list DOM.Element) (hs : list nat) :
  forall (doc : list DOM.Element) (acc : list ArticleToc.TocItem),
    (forall i, doc !! i = doc0 !! i
               \/ doc !! i = ArticleToc.ensureId <$> doc0 !! i) ->
    (foldl ArticleToc.visitHeading (doc, acc) hs).2
      = acc ++ omap (fun h => (fun e => ArticleToc.itemOf (ArticleToc.ensureId e))
                                <$> doc0 !! h) hs
    /\ forall i,
        (foldl ArticleToc.visitHeading (doc, acc) hs).1 !! i
        = if decide (i ∈ hs) then ArticleToc.ensureId <$> doc0 !! i
          else doc !! i.
Proof.
  induction hs as [|h tl IH]; intros doc acc Hinv.
  { cbn [foldl omap list_omap fst snd]. split; [by rewrite app_nil_r|].
    intros i. by rewrite decide_False by apply not_elem_of_nil. }
  cbn [foldl]. unfold ArticleToc.visitHeading at 2 4. cbn [fst snd].
  destruct (doc !! h) as [e|] eqn:Hh.
  - assert (exists e0, doc0 !! h = Some e0
                       /\ ArticleToc.ensureId e = ArticleToc.ensureId e0)
      as (e0 & He0 & Hens).
    { destruct (Hinv h) as [Heq | Heq]; rewrite Hh in Heq.
      - by exists e.
      - destruct (doc0 !! h) as [e0|]; [|done].
        injection Heq as ->. exists e0.
        by rewrite ensureId_idempotent. }
    rewrite Hens.
    destruct (IH (<[h := ArticleToc.ensureId e0]> doc)
                (acc ++ [ArticleToc.itemOf (ArticleToc.ensureId e0)]))
      as [Hitems Hdoc].
    { intros i. destruct (decide (i = h)) as [->|Hne].
      - right. rewrite He0. simpl.
        apply list_lookup_insert_eq. by eapply lookup_lt_Some.
      - rewrite list_lookup_insert_ne by done. apply Hinv. }
    split.
    + rewrite Hitems. cbn [omap list_omap]. rewrite He0.
      cbn [fmap option_fmap option_map]. by rewrite <- app_assoc.
    + intros i. rewrite Hdoc.
      destruct (decide (i = h)) as [->|Hne].
      * rewrite (decide_True _ _ (list_elem_of_here h tl)).
        case_decide; [done|]. rewrite He0. simpl.
        apply list_lookup_insert_eq. by eapply lookup_lt_Some.
      * rewrite list_lookup_insert_ne by done.
        destruct (decide (i ∈ tl)) as [Hin|Hnin].
        -- by rewrite decide_True by (by apply list_elem_of_further).
        -- rewrite decide_False; [done|].
           by intros [?|?]%elem_of_cons.
  - assert (doc0 !! h = None) as He0.
    { destruct (Hinv h) as [Heq | Heq]; rewrite Hh in Heq; [done|].
      by destruct (doc0 !! h). }
    destruct (IH doc acc Hinv) as [Hitems Hdoc].
    split.
    + rewrite Hitems. cbn [omap list_omap]. by rewrite He0.
    + intros i. rewrite Hdoc.
      destruct (decide (i = h)) as [->|Hne].
      * rewrite (decide_True _ _ (list_elem_of_here h tl)).
        case_decide; [done|]. by rewrite Hh, He0.
      * destruct (decide (i ∈ tl)) as [Hin|Hnin].
        -- by rewrite decide_True by (by apply list_elem_of_further).
        -- rewrite decide_False; [done|].
           by intros [?|?]%elem_of_cons.
Qed.

Lemma omap_Forall2 {A B : Type} (f : A -> option B) (l : list A) :
  (forall x, x ∈ l -> is_Some (f x)) ->
  Forall2 (fun x y => f x = Some y) l (omap f l).
Proof.
  induction l as [|x l IH]; intros Hall; [constructor|].
  simpl. destruct (Hall x (list_elem_of_here x l)) as [y Hy].
  rewrite Hy. constructor; [done|].
  apply IH. intros z Hz. apply Hall. by apply list_elem_of_further.
Qed.




Lemma querySelectorAllHeadings_elem (doc : list DOM.Element) (a j : nat) :
  j ∈ DOM.querySelectorAllHeadings doc a
  <-> j ∈ DOM.descendants doc a /\ DOM.isHeadingAt doc j = true.
Proof.
  unfold DOM.querySelectorAllHeadings.
  by rewrite !list_elem_of_In, filter_In.
Qed.

Lemma querySelectorAllHeadings_lookup (doc : list DOM.Element) (a h : nat) :
  h ∈ DOM.querySelectorAllHeadings doc a ->
  exists e, doc !! h = Some e /\ DOM.isHeadingTag (DOM.tagName e) = true.
Proof.
  intros [_ Hh]%querySelectorAllHeadings_elem.
  unfold DOM.isHeadingAt in Hh.
  destruct (doc !! h) as [e|]; [by exists e | done].
Qed.

(** The level read off a heading's tag name is the number in the name. *)
Lemma heading_level (t : string) :
  DOM.isHeadingTag t = true ->
  exists n, 1 <= n <= 6 /\ t = headingTagName n
            /\ JS.parseInt (JS.charAt 1 t) = JS.Int (Z.of_nat n).
Proof.
  unfold DOM.isHeadingTag. simpl.
  rewrite !orb_true_iff, !String.eqb_eq.
  intros [->|[->|[->|[->|[->|[->|?]]]]]]; [| | | | | |done].
  - exists 1. split; [lia|by split].
  - exists 2. split; [lia|by split].
  - exists 3. split; [lia|by split].
  - exists 4. split; [lia|by split].
  - exists 5. split; [lia|by split].
  - exists 6. split; [lia|by split].
Qed.

Lemma ensureId_setId (e : DOM.Element) :
  ArticleToc.ensureId e
  = DOM.setId (if JS.truthy (DOM.id e) then DOM.id e
               else ArticleToc.slugify (DOM.textContent e)) e.
Proof.
  unfold ArticleToc.ensureId.
  destruct (JS.truthy (DOM.id e)); [by destruct e | done].
Qed.

(** A lower-cased character that survives the first replacement is a
    slug character or white space. *)
Lemma lowerChar_kept (c : ascii) :
  JS.isWord (JS.lowerChar c) || JS.isSpace (JS.lowerChar c)
  || JS.isHyphen (JS.lowerChar c) = true ->
  isSlugChar (JS.lowerChar c) || JS.isSpace (JS.lowerChar c) = true.
Proof.
  destruct c as [[] [] [] [] [] [] [] []]; vm_compute; intros H; exact H.
Qed.

Lemma stripNonWord_alphabet (t : string) :
  everyChar (fun c => isSlugChar c || JS.isSpace c)
    (JS.stripNonWord (JS.toLowerCase t)) = true.
Proof.
  induction t as [|c r IH]; [done|].
  simpl.
  destruct (JS.isWord (JS.lowerChar c) || JS.isSpace (JS.lowerChar c)
            || JS.isHyphen (JS.lowerChar c)) eqn:Hkeep; [|exact IH].
  simpl. by rewrite (lowerChar_kept c Hkeep), IH.
Qed.

Lemma hyphenateFrom_alphabet (s : string) :
  everyChar (fun c => isSlugChar c || JS.isSpace c) s = true ->
  forall inRun, everyChar isSlugChar (JS.hyphenateFrom inRun s) = true.
Proof.
  induction s as [|c r IH]; [done|].
  simpl. intros [Hc Hr]%andb_true_iff inRun.
  destruct (JS.isSpace c).
  - destruct inRun; simpl; by apply IH.
  - rewrite orb_false_r in Hc. simpl. by rewrite Hc, IH.
Qed.

(** A slug is made of lower-case letters, digits, underscores and hyphens. *)
Lemma slugify_alphabet (t : option string) :
  everyChar isSlugChar (ArticleToc.slugify t) = true.
Proof.
  unfold ArticleToc.slugify, JS.orEmpty.
  destruct t as [t|]; [|done]. simpl.
  destruct (JS.truthy _); [|done].
  apply hyphenateFrom_alphabet, stripNonWord_alphabet.
Qed.

(** What the effect does when the container exists. *)
Lemma effect_found (articleId : string) (w : DOM.World)
    (i : ArticleToc.Instance) (a : nat) :
  DOM.getElementById (DOM.document w) articleId = Some a ->
  exists doc' items,
    ArticleToc.effect articleId w i
    = ({| DOM.document := doc';
          DOM.history := DOM.history w;
          DOM.console := DOM.console w;
          DOM.scrolls := DOM.scrolls w |},
       {| ArticleToc.hooks := ArticleToc.setTocItems items (ArticleToc.hooks i);
          ArticleToc.observed :=
            DOM.querySelectorAllHeadings (DOM.document w) a;
          ArticleToc.mounted := true |})
    /\ Forall2
         (fun h item =>
            exists e, DOM.document w !! h = Some e
                      /\ item = ArticleToc.itemOf (ArticleToc.ensureId e))
         (DOM.querySelectorAllHeadings (DOM.document w) a) items
    /\ forall j,
        doc' !! j
        = if decide (j ∈ DOM.querySelectorAllHeadings (DOM.document w) a)
          then ArticleToc.ensureId <$> DOM.document w !! j
          else DOM.document w !! j.
Proof.
  intros Hfound. unfold ArticleToc.effect. rewrite Hfound.
  set (hs := DOM.querySelectorAllHeadings (DOM.document w) a).
  destruct (visitHeading_fold (DOM.document w) hs (DOM.document w) [])
    as [Hitems Hdoc]; [by left|].
  destruct (foldl ArticleToc.visitHeading (DOM.document w, []) hs)
    as [doc' items].
  exists doc', items. split; [done|]. split; [|exact Hdoc].
  simpl in Hitems. rewrite Hitems.
  eapply Forall2_impl.
  - apply omap_Forall2. intros h Hh.
    destruct (querySelectorAllHeadings_lookup _ _ _ Hh) as (e & He & _).
    rewrite He. by eexists.
  - intros h item Hhi. simpl in Hhi.
    destruct (DOM.document w !! h) as [e|]; [|done].
    injection Hhi as <-. by exists e.
Qed.

Lemma app_String (c : ascii) (r t : string) :
  String c r +:+ t = String c (r +:+ t).
Proof. reflexivity. Qed.

Lemma app_assoc_string (a b c : string) : (a +:+ b) +:+ c = a +:+ (b +:+ c).
Proof.
  induction a as [|x a IH]; [done|]. by rewrite !app_String, IH.
Qed.













(** * Intersection batches *)

Lemma observerCallback_snoc (doc : list DOM.Element)
    (pre : list ArticleToc.IntersectionObserverEntry)
    (e : ArticleToc.IntersectionObserverEntry) (s : ArticleToc.State) :
  ArticleToc.observerCallback doc (pre ++ [e]) s
  = ArticleToc.onEntry doc (ArticleToc.observerCallback doc pre s) e.
Proof. unfold ArticleToc.observerCallback. by rewrite foldl_app. Qed.

Lemma observerCallback_app (doc : list DOM.Element)
    (pre post : list ArticleToc.IntersectionObserverEntry)
    (s : ArticleToc.State) :
  ArticleToc.observerCallback doc (pre ++ post) s
  = ArticleToc.observerCallback doc post
      (ArticleToc.observerCallback doc pre s).
Proof. unfold ArticleToc.observerCallback. by rewrite foldl_app. Qed.

Lemma observerCallback_tocItems (doc : list DOM.Element)
    (batch : list ArticleToc.IntersectionObserverEntry)
    (s : ArticleToc.State) :
  ArticleToc.tocItems (ArticleToc.observerCallback doc batch s)
  = ArticleToc.tocItems s.
Proof.
  induction batch as [|e pre IH] using rev_ind; [done|].
  rewrite observerCallback_snoc. unfold ArticleToc.onEntry.
  destruct (ArticleToc.isIntersecting e); [|done].
  by destruct (doc !! ArticleToc.target e).
Qed.

(** The last write wins. *)
Lemma observerCallback_last (doc : list DOM.Element)
    (batch : list ArticleToc.IntersectionObserverEntry)
    (s : ArticleToc.State) :
  ArticleToc.activeId (ArticleToc.observerCallback doc batch s)
  = default (ArticleToc.activeId s) (last (activeIdWrites doc batch)).
Proof.
  induction batch as [|e pre IH] using rev_ind; [done|].
  rewrite observerCallback_snoc. unfold activeIdWrites.
  rewrite omap_app. fold (activeIdWrites doc pre).
  unfold ArticleToc.onEntry. cbn [omap list_omap].
  destruct (ArticleToc.isIntersecting e).
  - destruct (doc !! ArticleToc.target e) as [el|]; simpl.
    + by rewrite last_snoc.
    + by rewrite app_nil_r.
  - by rewrite app_nil_r.
Qed.

Lemma observerCallback_none (doc : list DOM.Element)
    (batch : list ArticleToc.IntersectionObserverEntry)
    (s : ArticleToc.State) :
  existsb ArticleToc.isIntersecting batch = false ->
  ArticleToc.observerCallback doc batch s = s.
Proof.
  induction batch as [|e pre IH] using rev_ind; [done|].
  rewrite existsb_app. simpl. rewrite orb_false_r.
  intros [Hpre He]%orb_false_iff.
  rewrite observerCallback_snoc, (IH Hpre).
  unfold ArticleToc.onEntry. by rewrite He.
Qed.

(** C9: the callback handles the entries of a batch in the order of
    delivery; an intersecting entry writes the id of its target to the
    active id, any other entry leaves the state alone; so after the batch the
    active id is the last id written, that of the last intersecting entry
    delivered, and it is unchanged when no entry intersects.  The outline is
    never touched. *)
Theorem intersection_batch_last_wins (doc : list DOM.Element)
    (s : ArticleToc.State)
    (pre post batch : list ArticleToc.IntersectionObserverEntry)
    (e : ArticleToc.IntersectionObserverEntry) :
  let before := ArticleToc.observerCallback doc pre s in
  let after := ArticleToc.observerCallback doc (pre ++ [e]) s in
  ArticleToc.activeId after
    = (if ArticleToc.isIntersecting e
       then default (ArticleToc.activeId before)
              (DOM.id <$> doc !! ArticleToc.target e)
       else ArticleToc.activeId before)
  /\ ArticleToc.observerCallback doc (pre ++ e :: post) s
     = ArticleToc.observerCallback doc post after
  /\ ArticleToc.activeId (ArticleToc.observerCallback doc batch s)
     = default (ArticleToc.activeId s) (last (activeIdWrites doc batch))
  /\ ArticleToc.tocItems (ArticleToc.observerCallback doc batch s)
     = ArticleToc.tocItems s
  /\ (existsb ArticleToc.isIntersecting batch = true
      \/ ArticleToc.observerCallback doc batch s = s).
Proof.
  intros before after. subst before after.
  split; [|split; [|split; [|split]]].
  - rewrite observerCallback_snoc. unfold ArticleToc.onEntry.
    destruct (ArticleToc.isIntersecting e); [|done].
    by destruct (doc !! ArticleToc.target e).
  - by rewrite <- (observerCallback_app doc (pre ++ [e]) post), <- app_assoc.
  - apply observerCallback_last.
  - apply observerCallback_tocItems.
  - destruct (existsb ArticleToc.isIntersecting batch) eqn:Hex; [by left|].
    right. by apply observerCallback_none.
Qed.

(** * Clicking an entry *)

Lemma getElementById_truthy (doc : list DOM.Element) (x : string) (el : nat) :
  DOM.getElementById doc x = Some el ->
  JS.truthy x = true
  /\ exists e, doc !! el = Some e /\ DOM.id e = x.
Proof.
  unfold DOM.getElementById.
  destruct (JS.truthy x); [|done]. intros Hfind. split; [done|].
  destruct (list_find (fun e => DOM.id e = x) doc) as [[j e]|] eqn:Hj;
    [|done].
  injection Hfind as <-. apply list_find_Some in Hj as (Hl & Hid & _).
  by exists e.
Qed.

(** C1 fails as stated: a click on the entry of an existing heading leaves
    the history with one entry more than before. *)
Lemma click_grows_history :
  DOM.getElementById (DOM.document (worldOf explicitId_doc)) "intro" = Some 1
  /\ DOM.historyLength
       (DOM.history (ArticleToc.handleClick "intro" (worldOf explicitId_doc)))
     <> DOM.historyLength (DOM.history (worldOf explicitId_doc)).
Proof. split; [reflexivity | discriminate]. Qed.

Lemma plain_char (c : ascii) :
  DOM.inFragmentEncodeSet c = false ->
  DOM.isC0OrSpace c = false
  /\ (JS.code c =? 9)%nat || (JS.code c =? 10)%nat || (JS.code c =? 13)%nat
     = false.
Proof.
  destruct c as [[] [] [] [] [] [] [] []]; vm_compute; intros H;
    first [discriminate H | by split].
Qed.

(** The URL parser leaves a plain fragment as it is. *)
Lemma parsedFragment_plain (x : string) :
  DOM.plainFragment x = true -> DOM.parsedFragment x = x.
Proof.
  unfold DOM.parsedFragment. intros Hx.
  assert (DOM.stripTrailingC0 x = x /\ DOM.removeTabNewline x = x
          /\ DOM.percentEncodeFragment x = x) as (-> & -> & ->); [|done].
  induction x as [|c r IH]; [done|].
  simpl in Hx. apply andb_true_iff in Hx as [Hc Hr].
  apply negb_true_iff in Hc.
  destruct (plain_char c Hc) as [Hc0 Htab].
  destruct (IH Hr) as (IH1 & IH2 & IH3).
  simpl. by rewrite Hc0, Htab, Hc, IH1, IH2, IH3.
Qed.

Lemma slugChar_plain (c : ascii) :
  isSlugChar c = true -> DOM.inFragmentEncodeSet c = false.
Proof.
  destruct c as [[] [] [] [] [] [] [] []]; vm_compute; intros H;
    first [discriminate H | reflexivity].
Qed.

(** Every slug is a plain fragment. *)
Lemma slugify_plain (t : option string) :
  DOM.plainFragment (ArticleToc.slugify t) = true.
Proof.
  pose proof (slugify_alphabet t) as Hs.
  induction (ArticleToc.slugify t) as [|c r IH]; [done|].
  simpl in Hs |- *. apply andb_true_iff in Hs as [Hc Hr].
  by rewrite (slugChar_plain c Hc), IH.
Qed.

(** C1, amended: a click on the entry of an existing heading scrolls to the
    heading and pushes a history entry; the new entry is the current one, its
    URL is the former current URL with the fragment given as [#id], the
    former current entry is kept right before it and the entries after that
    one are dropped, so the history holds two entries more than the former
    index.  The document is not reloaded or changed.  When the id is made of
    characters that the URL parser leaves alone, as every slug is, the hash
    of the document is then [#id]; other ids are percent-encoded: the id
    [my id] gives the hash [#my%20id]. *)
Theorem click_pushes_hash (w : DOM.World) (x : string) (el : nat)
    (u : DOM.URL)
    (Hel : DOM.getElementById (DOM.document w) x = Some el)
    (Hu : DOM.currentURL (DOM.history w) = Some u) :
  let w' := ArticleToc.handleClick x w in
  let h := DOM.history w in
  let h' := DOM.history w' in
  DOM.currentURL h' = Some {| DOM.base := DOM.base u; DOM.fragment := Some x |}
  /\ (DOM.plainFragment x = true ->
      DOM.hash <$> DOM.currentURL h' = Some ("#" +:+ x))
  /\ (forall t, DOM.plainFragment (ArticleToc.slugify t) = true)
  /\ DOM.hash {| DOM.base := DOM.base u; DOM.fragment := Some "my id" |}
     = "#my%20id"
  /\ DOM.index h' = S (DOM.index h)
  /\ DOM.historyLength h' = S (S (DOM.index h))
  /\ DOM.entries h' !! DOM.index h = Some u
  /\ take (S (DOM.index h)) (DOM.entries h')
     = take (S (DOM.index h)) (DOM.entries h)
  /\ DOM.document w' = DOM.document w
  /\ DOM.console w' = DOM.console w
  /\ DOM.scrolls w' = DOM.scrolls w ++ [el].
Proof.
  intros w' h h'. subst w' h'. unfold ArticleToc.handleClick.
  rewrite Hel. simpl. fold h.
  destruct (getElementById_truthy _ _ _ Hel) as [Hx _].
  unfold DOM.pushStateFragment. fold h in Hu. rewrite Hu.
  unfold DOM.currentURL in *. simpl.
  pose proof (lookup_lt_Some _ _ _ Hu) as Hlt.
  assert (length (take (S (DOM.index h)) (DOM.entries h)) = S (DOM.index h))
    as Hlen by (rewrite length_take; lia).
  assert ((take (S (DOM.index h)) (DOM.entries h)
           ++ [{| DOM.base := DOM.base u; DOM.fragment := Some x |}])
          !! S (DOM.index h)
          = Some {| DOM.base := DOM.base u; DOM.fragment := Some x |}) as Hnew.
  { rewrite lookup_app_r by lia. by rewrite Hlen, Nat.sub_diag. }
  rewrite Hnew. simpl.
  split; [done|].
  split; [intros Hplain; unfold DOM.hash; simpl;
          by rewrite (parsedFragment_plain x Hplain), Hx|].
  split; [apply slugify_plain|]. split; [done|].
  split; [done|].
  split; [unfold DOM.historyLength; simpl; rewrite length_app, Hlen; simpl; lia|].
  split; [rewrite lookup_app_l by lia; rewrite lookup_take_lt by lia; done|].
  split; [|done].
  rewrite take_app_le by lia. by rewrite take_take, Nat.min_id.
Qed.

Lemma click_pushes_hash_witness :
  DOM.getElementById (DOM.document (worldOf explicitId_doc)) "intro" = Some 1
  /\ DOM.plainFragment "intro" = true
  /\ DOM.hash
       <$> DOM.currentURL
             (DOM.history
                (ArticleToc.handleClick "intro" (worldOf explicitId_doc)))
     = Some "#intro".
Proof.
  split; [reflexivity|]. split; [reflexivity|].
  exact (proj1 (proj2
    (click_pushes_hash (worldOf explicitId_doc) "intro" 1
       {| DOM.base := "https://docs.example/docs/getting-started";
          DOM.fragment := None |} eq_refl eq_refl)) eq_refl).
Defined.

(** * Reachable states of the table of contents *)

Lemma toc_run_snoc (articleId : string) (w : DOM.World)
    (es : list ArticleToc.Event) (e : ArticleToc.Event) :
  ArticleToc.run articleId w (es ++ [e])
  = ArticleToc.step articleId (ArticleToc.run articleId w es) e.
Proof. unfold ArticleToc.run. by rewrite foldl_app. Qed.

Lemma step_Click (articleId : string) (s : ArticleToc.System) (k : nat) :
  ArticleToc.inst (ArticleToc.step articleId s (ArticleToc.Click k))
    = ArticleToc.inst s
  /\ DOM.document
       (ArticleToc.world (ArticleToc.step articleId s (ArticleToc.Click k)))
     = DOM.document (ArticleToc.world s).
Proof.
  simpl. destruct (ArticleToc.tocItems (ArticleToc.hooks (ArticleToc.inst s)) !! k);
    [|done].
  simpl. split; [done|]. unfold ArticleToc.handleClick.
  by destruct (DOM.getElementById _ _).
Qed.

Lemma clicks_keep_inst (articleId : string) (ks : list nat) :
  forall s : ArticleToc.System,
    ArticleToc.inst
      (foldl (ArticleToc.step articleId) s (map ArticleToc.Click ks))
    = ArticleToc.inst s.
Proof.
  induction ks as [|k ks IH]; intros s; [done|].
  simpl map. cbn [foldl]. rewrite IH. apply step_Click.
Qed.

(** * Missing container, empty outline *)

Lemma render_None (s : ArticleToc.State) :
  ArticleToc.render s = None <-> ArticleToc.tocItems s = [].
Proof.
  unfold ArticleToc.render.
  destruct (ArticleToc.tocItems s) as [|item items]; simpl; by split.
Qed.

(** With no heading to find, the outline is empty in every state. *)
Lemma run_empty_outline (articleId : string) (w : DOM.World)
    (es : list ArticleToc.Event) :
  headingsOfArticle (DOM.document w) articleId = [] ->
  ArticleToc.tocItems
    (ArticleToc.hooks (ArticleToc.inst (ArticleToc.run articleId w es))) = []
  /\ (ArticleToc.mounted (ArticleToc.inst (ArticleToc.run articleId w es))
        = false ->
      DOM.document (ArticleToc.world (ArticleToc.run articleId w es))
        = DOM.document w).
Proof.
  intros Hnone. induction es as [|e es IH] using rev_ind; [done|].
  rewrite toc_run_snoc.
  generalize dependent (ArticleToc.run articleId w es).
  intros s IH. pose proof IH as [Hitems Hdoc].
  destruct e as [|batch|k]; simpl.
  - destruct (ArticleToc.mounted (ArticleToc.inst s)) eqn:Hm;
      [split; [done | by rewrite Hm]|].
    unfold headingsOfArticle in Hnone. unfold ArticleToc.effect.
    rewrite (Hdoc eq_refl).
    destruct (DOM.getElementById (DOM.document w) articleId) as [a|];
      [by rewrite Hnone | done].
  - destruct (ArticleToc.deliverable (ArticleToc.inst s) batch); [|exact IH].
    simpl. by rewrite observerCallback_tocItems.
  - rewrite Hitems. exact IH.
Qed.

(** C8: when the effect of a freshly rendered component finds no heading,
    because the container is missing or because the container has no
    heading, the outline is empty and the component renders nothing; the
    document, the history and the scroll position are untouched; a missing
    container adds exactly one warning to the console and an empty article
    adds none.  The effect is a total function: there is no exceptional
    outcome.  The outline then stays empty and the component renders nothing
    in every state it reaches.  In every state, the component renders
    nothing exactly if the outline is empty. *)
Theorem empty_outline_renders_nothing (articleId : string) (w : DOM.World)
    (Hnone : headingsOfArticle (DOM.document w) articleId = []) :
  let r := ArticleToc.effect articleId w ArticleToc.firstRender in
  ArticleToc.tocItems (ArticleToc.hooks r.2) = []
  /\ ArticleToc.render (ArticleToc.hooks r.2) = None
  /\ DOM.document r.1 = DOM.document w
  /\ DOM.history r.1 = DOM.history w
  /\ DOM.scrolls r.1 = DOM.scrolls w
  /\ DOM.console r.1
     = DOM.console w
       ++ match DOM.getElementById (DOM.document w) articleId with
          | Some _ => []
          | None => [ArticleToc.warning articleId]
          end
  /\ (forall es,
        ArticleToc.render
          (ArticleToc.hooks (ArticleToc.inst (ArticleToc.run articleId w es)))
        = None)
  /\ (forall s, ArticleToc.render s = None <-> ArticleToc.tocItems s = []).
Proof.
  assert (forall es,
            ArticleToc.render
              (ArticleToc.hooks (ArticleToc.inst (ArticleToc.run articleId w es)))
            = None) as Hrun.
  { intros es. apply render_None. by apply run_empty_outline. }
  unfold headingsOfArticle in Hnone. unfold ArticleToc.effect.
  destruct (DOM.getElementById (DOM.document w) articleId) as [a|].
  - rewrite Hnone. simpl. rewrite app_nil_r.
    repeat split; try done; apply render_None.
  - simpl. repeat split; try done; apply render_None.
Qed.

Lemma empty_outline_renders_nothing_witness :
  headingsOfArticle (DOM.document (worldOf scenarioB_doc)) "no-such-article"
    = []
  /\ ArticleToc.render
       (ArticleToc.hooks
          (ArticleToc.effect "no-such-article" (worldOf scenarioB_doc)
             ArticleToc.firstRender).2)
     = None.
Proof.
  split; [reflexivity|].
  exact (proj1 (proj2 (empty_outline_renders_nothing "no-such-article"
                         (worldOf scenarioB_doc) eq_refl))).
Defined.

Lemma step_quiet (articleId : string) (s : ArticleToc.System)
    (e : ArticleToc.Event) :
  ArticleToc.mounted (ArticleToc.inst s) = true ->
  quietEvent e = true ->
  ArticleToc.inst (ArticleToc.step articleId s e) = ArticleToc.inst s.
Proof.
  intros Hm Hq. destruct e as [|batch|k].
  - simpl. by rewrite Hm.
  - simpl in Hq |- *. apply negb_true_iff in Hq.
    destruct (ArticleToc.deliverable (ArticleToc.inst s) batch); [|done].
    simpl. rewrite observerCallback_none by done.
    by destruct (ArticleToc.inst s).
  - apply step_Click.
Qed.

Lemma quiet_keep_inst (articleId : string) (es : list ArticleToc.Event) :
  forall s : ArticleToc.System,
    ArticleToc.mounted (ArticleToc.inst s) = true ->
    forallb quietEvent es = true ->
    ArticleToc.inst (foldl (ArticleToc.step articleId) s es)
    = ArticleToc.inst s.
Proof.
  induction es as [|e es IH]; intros s Hm Hq; [done|].
  simpl in Hq. apply andb_true_iff in Hq as [He Hes].
  cbn [foldl]. rewrite IH; [by apply step_quiet| |done].
  by rewrite step_quiet.
Qed.

(** C10 fails as stated: the article has a heading of punctuation only,
    whose slug is empty, and the first render shows no entry at all, so no
    entry is marked active in it. *)
Lemma first_render_shows_no_entry :
  headingsOfArticle punctuation_doc "tabi-article" = [1; 2]
  /\ ArticleToc.slugify (Some "?!") = EmptyString
  /\ ~ (exists es v,
          ArticleToc.render
            (ArticleToc.hooks
               (ArticleToc.inst
                  (ArticleToc.run "tabi-article" (worldOf punctuation_doc) [])))
          = Some es
          /\ v ∈ es /\ ArticleToc.entryActive v = true).
Proof.
  split; [reflexivity|]. split; [reflexivity|].
  intros (es & v & Hes & _). discriminate Hes.
Qed.

(** C10, amended: the active id starts as the empty string, and the first
    render, made before the outline is built, shows no entry.  When the
    effect has run on an article one of whose headings has no id and a text
    whose slug is empty, the heading's record has the empty id, and for as
    long as no intersection is reported (clicks and batches without an
    intersecting entry may have happened) the active id is still the empty
    string and the entry of that heading is rendered as active: it is so
    from the first render that shows entries.  The slug is empty for a
    missing text, for the empty text and for a text of punctuation only. *)
Theorem empty_id_entry_active (articleId : string) (w : DOM.World)
    (a k h : nat) (e : DOM.Element) (events : list ArticleToc.Event)
    (Hfound : DOM.getElementById (DOM.document w) articleId = Some a)
    (Hk : DOM.querySelectorAllHeadings (DOM.document w) a !! k = Some h)
    (He : DOM.document w !! h = Some e)
    (Hid : DOM.id e = EmptyString)
    (Hslug : ArticleToc.slugify (DOM.textContent e) = EmptyString)
    (Hquiet : forallb quietEvent events = true) :
  let s := ArticleToc.run articleId w (ArticleToc.Mount :: events) in
  ArticleToc.activeId ArticleToc.initialState = EmptyString
  /\ ArticleToc.render
       (ArticleToc.hooks (ArticleToc.inst (ArticleToc.run articleId w [])))
     = None
  /\ ArticleToc.activeId (ArticleToc.hooks (ArticleToc.inst s)) = EmptyString
  /\ (exists es v,
        ArticleToc.render (ArticleToc.hooks (ArticleToc.inst s)) = Some es
        /\ es !! k = Some v
        /\ ArticleToc.entryActive v = true
        /\ ArticleToc.entryKey v = EmptyString
        /\ ArticleToc.entryText v = JS.orEmpty (DOM.textContent e))
  /\ ArticleToc.slugify None = EmptyString
  /\ ArticleToc.slugify (Some EmptyString) = EmptyString
  /\ ArticleToc.slugify (Some "?!") = EmptyString.
Proof.
  intros s. split; [done|]. split; [done|].
  assert (exists items,
            ArticleToc.hooks (ArticleToc.inst s)
              = ArticleToc.setTocItems items ArticleToc.initialState
            /\ Forall2
                 (fun h item =>
                    exists e, DOM.document w !! h = Some e
                              /\ item = ArticleToc.itemOf (ArticleToc.ensureId e))
                 (DOM.querySelectorAllHeadings (DOM.document w) a) items)
    as (items & -> & Hrel).
  { subst s. unfold ArticleToc.run. cbn [foldl].
    destruct (effect_found articleId w ArticleToc.firstRender a Hfound)
      as (doc' & items & Heff & Hrel & _).
    rewrite quiet_keep_inst; [|by simpl; rewrite Heff|done].
    simpl. rewrite Heff. by exists items. }
  split; [done|]. split; [|done].
  destruct (Forall2_lookup_l _ _ _ _ _ Hrel Hk) as (item & Hitem & e' & He' & ->).
  rewrite He in He'. injection He' as <-.
  unfold ArticleToc.render. simpl.
  destruct items as [|i0 items']; [done|]. simpl Nat.eqb. cbv iota.
  eexists _, _. split; [done|].
  split; [by rewrite list_lookup_fmap, Hitem|].
  rewrite ensureId_setId, Hid, Hslug. by simpl.
Qed.

Lemma empty_id_entry_active_witness :
  DOM.getElementById (DOM.document (worldOf punctuation_doc)) "tabi-article"
    = Some 0
  /\ forallb quietEvent
       [ArticleToc.Click 1;
        ArticleToc.Intersect
          [{| ArticleToc.isIntersecting := false; ArticleToc.target := 2 |}]]
     = true
  /\ ArticleToc.activeId
       (ArticleToc.hooks
          (ArticleToc.inst
             (ArticleToc.run "tabi-article" (worldOf punctuation_doc)
                [ArticleToc.Mount; ArticleToc.Click 1;
                 ArticleToc.Intersect
                   [{| ArticleToc.isIntersecting := false;
                       ArticleToc.target := 2 |}]])))
     = EmptyString.
Proof.
  split; [reflexivity|]. split; [reflexivity|].
  exact (proj1 (proj2 (proj2
    (empty_id_entry_active "tabi-article" (worldOf punctuation_doc) 0 1 2
       (element "H2" EmptyString "?!" 1)
       [ArticleToc.Click 1;
        ArticleToc.Intersect
          [{| ArticleToc.isIntersecting := false; ArticleToc.target := 2 |}]]
       eq_refl eq_refl eq_refl eq_refl eq_refl eq_refl)))).
Defined.

Lemma deliverable_nil (i : ArticleToc.Instance)
    (batch : list ArticleToc.IntersectionObserverEntry) :
  ArticleToc.observed i = [] ->
  ArticleToc.deliverable i batch = true -> batch = [].
Proof.
  unfold ArticleToc.deliverable. intros ->.
  by destruct batch.
Qed.

(** A deliverable batch keeps the active id among the ids of the outline. *)
Lemma observerCallback_invariant (doc : list DOM.Element)
    (i : ArticleToc.Instance)
    (batch : list ArticleToc.IntersectionObserverEntry) :
  Forall2
    (fun h item => exists el, doc !! h = Some el
                              /\ DOM.id el = ArticleToc.id item)
    (ArticleToc.observed i) (ArticleToc.tocItems (ArticleToc.hooks i)) ->
  ArticleToc.deliverable i batch = true ->
  (ArticleToc.activeId (ArticleToc.hooks i) = EmptyString
   \/ exists item, item ∈ ArticleToc.tocItems (ArticleToc.hooks i)
                   /\ ArticleToc.id item
                      = ArticleToc.activeId (ArticleToc.hooks i)) ->
  let s' := ArticleToc.observerCallback doc batch (ArticleToc.hooks i) in
  ArticleToc.activeId s' = EmptyString
  \/ exists item, item ∈ ArticleToc.tocItems (ArticleToc.hooks i)
                  /\ ArticleToc.id item = ArticleToc.activeId s'.
Proof.
  intros Hobs. unfold ArticleToc.deliverable.
  induction batch as [|e pre IH] using rev_ind; intros Hdel Hact; [done|].
  rewrite forallb_app in Hdel. apply andb_true_iff in Hdel as [Hpre He].
  simpl in He. rewrite andb_true_r in He.
  specialize (IH Hpre Hact). simpl in IH |- *.
  rewrite observerCallback_snoc. unfold ArticleToc.onEntry.
  destruct (ArticleToc.isIntersecting e); [|exact IH].
  destruct (doc !! ArticleToc.target e) as [el|] eqn:Hel; [|exact IH].
  right. simpl.
  apply existsb_exists in He as (h & Hh & Heq).
  apply Nat.eqb_eq in Heq. subst h.
  apply list_elem_of_In, list_elem_of_lookup_1 in Hh as [k Hk].
  destruct (Forall2_lookup_l _ _ _ _ _ Hobs Hk)
    as (item & Hitem & el' & Hel' & Hid).
  rewrite Hel in Hel'. injection Hel' as <-.
  exists item. split; [by eapply list_elem_of_lookup_2 | done].
Qed.

(** The invariant holds in every state the component reaches. *)
Lemma run_invariant (articleId : string) (w : DOM.World)
    (es : list ArticleToc.Event) :
  tocInvariant (ArticleToc.run articleId w es).
Proof.
  induction es as [|e es IH] using rev_ind.
  { split; [done|]. split; [constructor | by left]. }
  rewrite toc_run_snoc.
  generalize dependent (ArticleToc.run articleId w es). intros s IH.
  pose proof IH as (Hfresh & Hobs & Hact).
  destruct e as [|batch|k].
  - (* the effect *)
    simpl. destruct (ArticleToc.mounted (ArticleToc.inst s)) eqn:Hm;
      [exact IH|].
    rewrite (Hfresh eq_refl).
    destruct (DOM.getElementById (DOM.document (ArticleToc.world s)) articleId)
      as [a|] eqn:Ha.
    + destruct (effect_found articleId (ArticleToc.world s)
                  ArticleToc.firstRender a Ha)
        as (doc' & items & -> & Hrel & Hdoc).
      split; [done|]. split; [|by left]. simpl.
      apply Forall2_same_length_lookup.
      apply Forall2_same_length_lookup in Hrel as [Hlen Hrel].
      split; [done|]. intros j h item Hh Hitem.
      destruct (Hrel j h item Hh Hitem) as (e0 & He0 & ->).
      exists (ArticleToc.ensureId e0).
      rewrite Hdoc, decide_True, He0 by (by eapply list_elem_of_lookup_2).
      done.
    + unfold ArticleToc.effect. rewrite Ha.
      split; [done|]. split; [constructor | by left].
  - (* a batch of intersections *)
    simpl. destruct (ArticleToc.deliverable (ArticleToc.inst s) batch) eqn:Hdel;
      [|exact IH].
    split; [|split]; simpl.
    + intros Hm. specialize (Hfresh Hm).
      assert (batch = []) as ->
        by (apply (deliverable_nil (ArticleToc.inst s)); [by rewrite Hfresh | done]).
      by rewrite Hfresh.
    + by rewrite observerCallback_tocItems.
    + rewrite observerCallback_tocItems.
      by apply (observerCallback_invariant _ (ArticleToc.inst s) batch).
  - (* a click *)
    destruct (step_Click articleId s k) as [Hi Hd].
    unfold tocInvariant. by rewrite Hi, Hd.
Qed.

Lemma filter_absent (x : string) (items : list ArticleToc.TocItem) :
  x ∉ map ArticleToc.id items ->
  List.filter (fun item => String.eqb x (ArticleToc.id item)) items = [].
Proof.
  induction items as [|item items IH]; [done|].
  simpl. intros Hx. destruct (String.eqb x (ArticleToc.id item)) eqn:Heq.
  - apply String.eqb_eq in Heq. destruct Hx. rewrite Heq. apply list_elem_of_here.
  - apply IH. intros Hin. apply Hx. by apply list_elem_of_further.
Qed.

Lemma filter_NoDup_le (x : string) (items : list ArticleToc.TocItem) :
  NoDup (map ArticleToc.id items) ->
  length (List.filter (fun item => String.eqb x (ArticleToc.id item)) items) <= 1.
Proof.
  induction items as [|item items IH]; [simpl; lia|].
  simpl. intros [Hnotin Hnd]%NoDup_cons.
  destruct (String.eqb x (ArticleToc.id item)) eqn:Heq; [|by apply IH].
  apply String.eqb_eq in Heq. subst x.
  by rewrite filter_absent.
Qed.

Lemma activeEntries_count (s : ArticleToc.State) :
  length (ArticleToc.activeEntries (ArticleToc.render s))
  = length (List.filter
              (fun item => String.eqb (ArticleToc.activeId s) (ArticleToc.id item))
              (ArticleToc.tocItems s)).
Proof.
  unfold ArticleToc.render.
  destruct (ArticleToc.tocItems s) as [|i0 items] eqn:Hitems; [done|].
  cbn [length Nat.eqb ArticleToc.activeEntries].
  generalize (i0 :: items). intros l.
  induction l as [|item l IH]; [done|].
  simpl. destruct (String.eqb (ArticleToc.activeId s) (ArticleToc.id item));
    simpl; by rewrite IH.
Qed.

(** C2 fails as stated: two headings with the same text get the same id, and
    once one of them is reported as intersecting both entries are marked
    active. *)
Lemma twin_headings_both_active :
  ~ (length
       (ArticleToc.activeEntries
          (ArticleToc.render
             (ArticleToc.hooks
                (ArticleToc.inst
                   (ArticleToc.run "tabi-article" (worldOf twinHeadings_doc)
                      twinHeadings_events)))))
     <= 1).
Proof. vm_compute. lia. Qed.

(** C2, amended: in every state reached by a component mounted on one
    article, the active id is the empty string or the id of at least one
    record of the outline; an entry is marked active exactly if its id is
    the active id, so the entries marked active are as many as the records
    with that id; when the ids of the records are pairwise distinct at most
    one entry is marked active. *)
Theorem active_id_invariant (articleId : string) (w : DOM.World)
    (es : list ArticleToc.Event) :
  let st := ArticleToc.hooks (ArticleToc.inst (ArticleToc.run articleId w es)) in
  (ArticleToc.activeId st = EmptyString
   \/ exists item, item ∈ ArticleToc.tocItems st
                   /\ ArticleToc.id item = ArticleToc.activeId st)
  /\ (forall item,
        ArticleToc.entryActive (ArticleToc.renderItem st item) = true
        <-> ArticleToc.id item = ArticleToc.activeId st)
  /\ length (ArticleToc.activeEntries (ArticleToc.render st))
     = length (List.filter
                 (fun item =>
                    String.eqb (ArticleToc.activeId st) (ArticleToc.id item))
                 (ArticleToc.tocItems st))
  /\ (NoDup (map ArticleToc.id (ArticleToc.tocItems st)) ->
      length (ArticleToc.activeEntries (ArticleToc.render st)) <= 1).
Proof.
  intros st.
  destruct (run_invariant articleId w es) as (_ & _ & Hact).
  split; [exact Hact|]. split; [|split].
  - intros item. simpl. rewrite String.eqb_eq. split; congruence.
  - apply activeEntries_count.
  - intros Hnd. rewrite activeEntries_count. by apply filter_NoDup_le.
Qed.

Lemma active_id_invariant_witness :
  NoDup
    (map ArticleToc.id
       (ArticleToc.tocItems
          (ArticleToc.hooks
             (ArticleToc.inst
                (ArticleToc.run "tabi-article" (worldOf scenarioB_doc)
                   [ArticleToc.Mount])))))
  /\ length
       (ArticleToc.activeEntries
          (ArticleToc.render
             (ArticleToc.hooks
                (ArticleToc.inst
                   (ArticleToc.run "tabi-article" (worldOf scenarioB_doc)
                      [ArticleToc.Mount])))))
     <= 1.
Proof.
  assert (NoDup
    (map ArticleToc.id
       (ArticleToc.tocItems
          (ArticleToc.hooks
             (ArticleToc.inst
                (ArticleToc.run "tabi-article" (worldOf scenarioB_doc)
                   [ArticleToc.Mount])))))) as Hnd.
  { apply (bool_decide_unpack _). by vm_compute. }
  split; [exact Hnd|].
  exact (proj2 (proj2 (proj2
    (active_id_invariant "tabi-article" (worldOf scenarioB_doc)
       [ArticleToc.Mount]))) Hnd).
Defined.

(** * Further properties of the navigation drawer *)

Lemma rerender_fresh (i : SideNav.Instance) :
  SideNav.rendered (SideNav.rerender i) = SideNav.hooks i
  /\ SideNav.hooks (SideNav.rerender i) = SideNav.hooks i.
Proof. done. Qed.

(** The [keydown] listener acts on the [isOpen] it closes over: in every
    state with the listeners installed, a key press leaves the drawer open
    exactly if it was open and the key is not an Escape that the listener
    sees as open; so no key opens the drawer.  Once the component has
    re-rendered and the effects of that render have run, the Escape key
    leaves the drawer closed, whether it was open or not, and any other key
    leaves it as it was; after the re-render alone, a click on the overlay
    leaves it closed.  An Escape that comes between a re-render and its
    effects is handled by the listener of the render before: on a drawer just
    opened it does nothing. *)
Theorem escape_and_overlay_close (b : SideNav.Browser)
    (es : list SideNav.Event) (key : string) :
  let j := SideNav.run (SideNav.mounted b) es in
  let r := SideNav.run (SideNav.mounted b) (es ++ [SideNav.Rerender]) in
  let i := SideNav.run (SideNav.mounted b)
             (es ++ [SideNav.Rerender; SideNav.Effects]) in
  SideNav.isOpen (SideNav.hooks (SideNav.step j (SideNav.KeyDown key)))
    = SideNav.isOpen (SideNav.hooks j)
      && negb (String.eqb key "Escape" && SideNav.handlerIsOpen j)
  /\ SideNav.isOpen (SideNav.hooks (SideNav.step i (SideNav.KeyDown "Escape")))
     = false
  /\ SideNav.isOpen (SideNav.hooks (SideNav.step i (SideNav.KeyDown key)))
     = SideNav.isOpen (SideNav.hooks i) && negb (String.eqb key "Escape")
  /\ SideNav.isOpen (SideNav.hooks (SideNav.step r SideNav.OverlayClick))
     = false
  /\ SideNav.isOpen (SideNav.hooks (SideNav.step i SideNav.OverlayClick))
     = false
  /\ SideNav.isOpen
       (SideNav.hooks
          (SideNav.run (SideNav.mounted narrowBrowser)
             [SideNav.Rerender; SideNav.Effects; SideNav.ToggleClick;
              SideNav.Rerender; SideNav.KeyDown "Escape"]))
     = true
  /\ SideNav.isOpen
       (SideNav.hooks
          (SideNav.run (SideNav.mounted narrowBrowser)
             [SideNav.Rerender; SideNav.Effects; SideNav.ToggleClick;
              SideNav.Rerender; SideNav.Effects; SideNav.KeyDown "Escape"]))
     = false.
Proof.
  intros j r i.
  assert (SideNav.listening j = true) as Hlj.
  { subst j. by apply run_listening. }
  assert (r = SideNav.rerender j) as Hr.
  { subst r j. by rewrite run_snoc. }
  assert (i = SideNav.keyEffect (SideNav.rerender j)) as Hi.
  { subst i j.
    replace (es ++ [SideNav.Rerender; SideNav.Effects])
      with ((es ++ [SideNav.Rerender]) ++ [SideNav.Effects])
      by (by rewrite <- app_assoc).
    rewrite !run_snoc. simpl.
    by rewrite (run_listening es (SideNav.mounted b)). }
  clearbody j r i. subst r i.
  destruct j as [rs [o cp] l h]. simpl in Hlj. subst l.
  unfold SideNav.step, SideNav.handleKeyDown. cbn.
  split.
  { destruct (String.eqb key "Escape"), h, o; done. }
  destruct o; cbn; (split; [done|]); (split; [|done]);
    by destruct (String.eqb key "Escape").
Qed.

Lemma toggle_run_stale (n : nat) (i : SideNav.Instance) :
  SideNav.rendered (SideNav.run i (replicate n SideNav.ToggleClick))
    = SideNav.rendered i
  /\ SideNav.isOpen
       (SideNav.hooks (SideNav.run i (replicate (S n) SideNav.ToggleClick)))
     = negb (SideNav.isOpen (SideNav.rendered i)).
Proof.
  revert i. induction n as [|n IH]; intros i; [done|].
  destruct (IH (SideNav.toggleNav i)) as [Hr Hh].
  split; [exact Hr | exact Hh].
Qed.

Lemma toggle_run_fresh (n : nat) (i : SideNav.Instance) :
  SideNav.isOpen
    (SideNav.hooks
       (SideNav.run (SideNav.rerender i)
          (concat (replicate n [SideNav.ToggleClick; SideNav.Rerender]))))
  = Nat.iter n negb (SideNav.isOpen (SideNav.hooks i)).
Proof.
  revert i. induction n as [|n IH]; intros i; [done|].
  cbn [replicate concat app]. unfold SideNav.run. cbn [foldl].
  change (foldl SideNav.step ?x ?l) with (SideNav.run x l).
  change (SideNav.step (SideNav.step (SideNav.rerender i) SideNav.ToggleClick)
            SideNav.Rerender)
    with (SideNav.rerender (SideNav.toggleNav (SideNav.rerender i))).
  rewrite IH. by rewrite Nat.iter_succ_r.
Qed.

(** A click on the toggle button flips the drawer state that the last render
    saw.  With a re-render after every click, [n] clicks negate the state [n]
    times; clicks that arrive before the next render all write the same
    value, so together they count as one. *)
Theorem toggle_flips_rendered_state (i : SideNav.Instance) (n : nat) :
  SideNav.isOpen
    (SideNav.hooks
       (SideNav.run (SideNav.rerender i)
          (concat (replicate n [SideNav.ToggleClick; SideNav.Rerender]))))
    = (if Nat.even n then SideNav.isOpen (SideNav.hooks i)
       else negb (SideNav.isOpen (SideNav.hooks i)))
  /\ SideNav.isOpen
       (SideNav.hooks
          (SideNav.run (SideNav.rerender i)
             (replicate (S n) SideNav.ToggleClick)))
     = negb (SideNav.isOpen (SideNav.hooks i)).
Proof.
  split; [|apply toggle_run_stale].
  rewrite toggle_run_fresh.
  generalize (SideNav.isOpen (SideNav.hooks i)). intros o.
  induction n as [|n IH]; [done|].
  rewrite Nat.iter_succ, IH, Nat.even_succ, <- Nat.negb_even.
  by destruct (Nat.even n), o.
Qed.

Lemma step_currentPath (i : SideNav.Instance) (e : SideNav.Event) :
  SideNav.listening i = true ->
  SideNav.currentPath (SideNav.hooks (SideNav.step i e))
    = SideNav.currentPath (SideNav.hooks i)
  /\ (SideNav.rendered (SideNav.step i e) = SideNav.rendered i
      \/ SideNav.rendered (SideNav.step i e) = SideNav.hooks i).
Proof.
  intros Hl. destruct e; simpl; rewrite ?Hl; auto.
  - destruct (SideNav.isOpen (SideNav.rendered i)); auto.
  - unfold SideNav.handleKeyDown.
    destruct (String.eqb key "Escape" && SideNav.handlerIsOpen i); auto.
Qed.

Lemma group_active_hrefs (s : SideNav.State) (l : list SideNav.NavItem) :
  map SideNav.linkHref
    (List.filter SideNav.linkActive (map (SideNav.renderLink s) l))
  = List.filter (SideNav.isActive s) (map SideNav.href l).
Proof.
  induction l as [|item l IH]; [done|].
  simpl. destruct (SideNav.isActive s (SideNav.href item)); simpl;
    by rewrite IH.
Qed.

(** The links marked active are the entries' [href]s that [isActive]
    accepts, in order. *)
Lemma activeLinks_filter (navItems : list SideNav.NavEntry)
    (s : SideNav.State) :
  SideNav.activeLinks (SideNav.render navItems s)
  = List.filter (SideNav.isActive s) (SideNavLinks.allHrefs navItems).
Proof.
  unfold SideNav.activeLinks, SideNav.render, SideNavLinks.allHrefs. simpl.
  induction navItems as [|entry navItems IH]; [done|].
  simpl. rewrite IH, List.filter_app. f_equal.
  destruct entry as [item|g]; simpl.
  - by destruct (SideNav.isActive s (SideNav.href item)).
  - apply group_active_hrefs.
Qed.

(** The links marked active depend on the current path only. *)
Lemma activeLinks_path (navItems : list SideNav.NavEntry)
    (s s' : SideNav.State) :
  SideNav.currentPath s = SideNav.currentPath s' ->
  SideNav.activeLinks (SideNav.render navItems s)
  = SideNav.activeLinks (SideNav.render navItems s').
Proof.
  intros Hp. rewrite !activeLinks_filter.
  apply List.filter_ext. intros h. unfold SideNav.isActive. by rewrite Hp.
Qed.

(** The current path is captured once, by the effect of the first render: no
    later event changes it, whatever the toggles, keys, overlay clicks and
    breakpoint changes, so every render after the first marks the same links
    active. *)
Theorem currentPath_captured_once (b : SideNav.Browser)
    (es : list SideNav.Event) (navItems : list SideNav.NavEntry) :
  let i := SideNav.run (SideNav.mounted b) es in
  SideNav.currentPath (SideNav.hooks i) = Some (SideNav.pathname b)
  /\ (SideNav.currentPath (SideNav.rendered i) = None
      \/ SideNav.currentPath (SideNav.rendered i) = Some (SideNav.pathname b))
  /\ SideNav.activeLinks
       (SideNav.render navItems (SideNav.rendered (SideNav.rerender i)))
     = SideNav.activeLinks
         (SideNav.render navItems
            {| SideNav.isOpen := false;
               SideNav.currentPath := Some (SideNav.pathname b) |}).
Proof.
  intros i.
  assert (SideNav.listening i = true
          /\ SideNav.currentPath (SideNav.hooks i) = Some (SideNav.pathname b)
          /\ (SideNav.currentPath (SideNav.rendered i) = None
              \/ SideNav.currentPath (SideNav.rendered i)
                 = Some (SideNav.pathname b))) as (Hl & Hh & Hr).
  { subst i. induction es as [|e es IH] using rev_ind.
    - split; [done|]. split; [done|]. by left.
    - rewrite run_snoc. destruct IH as (Hl & Hh & Hr).
      destruct (step_currentPath _ e Hl) as [Hh' Hr'].
      split; [by apply step_listening|]. split; [by rewrite Hh'|].
      destruct Hr' as [-> | ->]; [done | by right]. }
  split; [done|]. split; [done|].
  by apply activeLinks_path.
Qed.

Lemma normalizePath_is_Some (h : string) :
  exists q, SideNav.normalizePath (Some h) = Some q.
Proof. rewrite normalizePath_Some. by eexists. Qed.

(** While the current path is not known (the first render) no link is marked
    active, whatever the entries, and the scroll effect looks for no link; it
    looks for none either when the path is the empty string. *)
Theorem no_active_link_without_path (navItems : list SideNav.NavEntry)
    (isOpen : bool) (anchors : list string) :
  SideNav.activeLinks
    (SideNav.render navItems
       {| SideNav.isOpen := isOpen; SideNav.currentPath := None |}) = []
  /\ SideNav.activeLinks
       (SideNav.render navItems (SideNav.rendered SideNav.firstRender)) = []
  /\ SideNavLinks.findActiveLink anchors None = None
  /\ SideNavLinks.findActiveLink anchors (Some EmptyString) = None.
Proof.
  assert (forall o, SideNav.activeLinks
            (SideNav.render navItems
               {| SideNav.isOpen := o; SideNav.currentPath := None |}) = [])
    as Hnone.
  { intros o. rewrite activeLinks_filter.
    induction (SideNavLinks.allHrefs navItems) as [|h l IH]; [done|].
    simpl. rewrite IH. unfold SideNav.isActive. simpl.
    by destruct (normalizePath_is_Some h) as [q ->]. }
  split; [apply Hnone|]. split; [apply Hnone|]. done.
Qed.

Lemma filter_active_absent (s : SideNav.State) (l : list string) :
  SideNav.normalizePath (SideNav.currentPath s)
    ∉ map (fun h => SideNav.normalizePath (Some h)) l ->
  List.filter (SideNav.isActive s) l = [].
Proof.
  induction l as [|h l IH]; [done|].
  simpl. intros Hnot.
  destruct (SideNav.isActive s h) eqn:Hact.
  - apply strictEq_eq in Hact. destruct Hnot. rewrite Hact.
    apply list_elem_of_here.
  - apply IH. intros Hin. apply Hnot. by apply list_elem_of_further.
Qed.

Lemma filter_active_NoDup (s : SideNav.State) (l : list string) :
  NoDup (map (fun h => SideNav.normalizePath (Some h)) l) ->
  length (List.filter (SideNav.isActive s) l) <= 1
  /\ forall h, h ∈ l -> SideNav.isActive s h = true ->
               List.filter (SideNav.isActive s) l = [h].
Proof.
  induction l as [|h0 l IH]; [split; [simpl; lia | by intros h ?%not_elem_of_nil]|].
  simpl. intros [Hnotin Hnd]%NoDup_cons. destruct (IH Hnd) as [Hle Hone].
  destruct (SideNav.isActive s h0) eqn:Hact.
  - assert (List.filter (SideNav.isActive s) l = []) as Hnil.
    { apply filter_active_absent. apply strictEq_eq in Hact. by rewrite Hact. }
    rewrite Hnil. split; [simpl; lia|].
    intros h [->|Hin]%elem_of_cons Hh; [done|].
    assert (h ∈ List.filter (SideNav.isActive s) l) as Hf
      by (apply list_elem_of_In, filter_In; by rewrite <- list_elem_of_In).
    rewrite Hnil in Hf. by apply not_elem_of_nil in Hf.
  - split; [done|].
    intros h [->|Hin]%elem_of_cons Hh; [congruence | by apply Hone].
Qed.

(** When no two entries have the same normalised [href], at most one link is
    marked active; and when the current path matches an entry, that entry's
    link is the only one marked.  The navigation of the documentation pages
    is such a list. *)
Theorem at_most_one_active_link (navItems : list SideNav.NavEntry)
    (s : SideNav.State)
    (Hdistinct :
       NoDup (map (fun h => SideNav.normalizePath (Some h))
                (SideNavLinks.allHrefs navItems))) :
  length (SideNav.activeLinks (SideNav.render navItems s)) <= 1
  /\ (forall h, h ∈ SideNavLinks.allHrefs navItems ->
                SideNav.isActive s h = true ->
                SideNav.activeLinks (SideNav.render navItems s) = [h]).
Proof.
  rewrite activeLinks_filter. by apply filter_active_NoDup.
Qed.

Lemma at_most_one_active_link_witness :
  NoDup (map (fun h => SideNav.normalizePath (Some h))
           (SideNavLinks.allHrefs SideNavLinks.navigationItems))
  /\ SideNav.activeLinks
       (SideNav.render SideNavLinks.navigationItems
          (stateAt false "/docs/app/core/routing/"))
     = ["/docs/app/core/routing"].
Proof.
  assert (NoDup (map (fun h => SideNav.normalizePath (Some h))
                   (SideNavLinks.allHrefs SideNavLinks.navigationItems)))
    as Hnd.
  { apply (bool_decide_unpack _). by vm_compute. }
  split; [exact Hnd|].
  apply (proj2 (at_most_one_active_link SideNavLinks.navigationItems
                  (stateAt false "/docs/app/core/routing/") Hnd)).
  - apply (bool_decide_unpack _). by vm_compute.
  - reflexivity.
Defined.

Lemma append_cons (c : ascii) (r t : string) :
  String c r +:+ t = String c (r +:+ t).
Proof. reflexivity. Qed.

Lemma slashes_S (n : nat) : JS.slashes (S n) = String "/"%char (JS.slashes n).
Proof. reflexivity. Qed.

Lemma allSlashes_slashes_S (n : nat) : JS.allSlashes (JS.slashes (S n)) = true.
Proof.
  induction n as [|n IH]; [done|].
  rewrite (slashes_S (S n)), allSlashes_cons, IH. by destruct (JS.truthy _).
Qed.

Lemma allSlashes_app_slashes (s : string) (n : nat) :
  JS.truthy s = true ->
  JS.allSlashes (s +:+ JS.slashes n) = JS.allSlashes s.
Proof.
  induction s as [|c r IH]; [done|]. intros _.
  rewrite append_cons, !allSlashes_cons. f_equal.
  destruct r as [|d r'].
  - change (EmptyString +:+ JS.slashes n) with (JS.slashes n).
    destruct n as [|n]; [done|].
    rewrite allSlashes_slashes_S. by rewrite slashes_S.
  - rewrite IH by done. by rewrite append_cons.
Qed.

(** Slashes added at the end do not change what the replacement returns. *)
Lemma replaceTrailingSlashes_app_slashes (p : string) (n : nat) :
  JS.replaceTrailingSlashes (p +:+ JS.slashes n) = JS.replaceTrailingSlashes p.
Proof.
  induction p as [|c r IH].
  - change (EmptyString +:+ JS.slashes n) with (JS.slashes n).
    destruct n as [|n]; [done|].
    pose proof (allSlashes_slashes_S n) as Hall.
    rewrite slashes_S in Hall |- *.
    by rewrite replaceTrailingSlashes_cons, Hall.
  - pose proof (allSlashes_app_slashes (String c r) n eq_refl) as Hall.
    rewrite append_cons in Hall |- *.
    by rewrite !replaceTrailingSlashes_cons, IH, Hall.
Qed.

(** Slashes at the end of a path do not matter to [normalizePath], and so
    not to [isActive], as long as the path is not made of slashes only; a
    path of slashes only is kept when it is the root path and becomes the
    empty string otherwise, so two slashes are not the root path. *)
Theorem trailing_slashes_ignored (p href : string) (n : nat)
    (isOpen : bool)
    (Hp : JS.truthy (JS.replaceTrailingSlashes p) = true) :
  SideNav.normalizePath (Some (p +:+ JS.slashes n))
    = SideNav.normalizePath (Some p)
  /\ SideNav.isActive (stateAt isOpen (p +:+ JS.slashes n)) href
     = SideNav.isActive (stateAt isOpen p) href
  /\ SideNav.isActive (stateAt isOpen href) (p +:+ JS.slashes n)
     = SideNav.isActive (stateAt isOpen href) p
  /\ SideNav.normalizePath (Some (JS.slashes (S (S n)))) = Some EmptyString
  /\ SideNav.isActive (stateAt isOpen (JS.slashes (S (S n)))) "/" = false.
Proof.
  assert (SideNav.normalizePath (Some (p +:+ JS.slashes n))
          = SideNav.normalizePath (Some p)) as Hnorm.
  { rewrite !normalizePath_Some.
    assert (forall q, JS.truthy (JS.replaceTrailingSlashes q) = true ->
                      String.eqb q "/" = false) as Hroot.
    { intros q Hq. destruct (String.eqb q "/") eqn:Heq; [|done].
      apply String.eqb_eq in Heq. by subst q. }
    rewrite (Hroot p Hp), (Hroot (p +:+ JS.slashes n))
      by (by rewrite replaceTrailingSlashes_app_slashes).
    by rewrite replaceTrailingSlashes_app_slashes. }
  assert (SideNav.normalizePath (Some (JS.slashes (S (S n))))
          = Some EmptyString) as Hsl.
  { rewrite normalizePath_Some.
    assert (String.eqb (JS.slashes (S (S n))) "/" = false) as ->
      by (by destruct n).
    pose proof (allSlashes_slashes_S (S n)) as Hall.
    rewrite (slashes_S (S n)) in Hall |- *.
    by rewrite replaceTrailingSlashes_cons, Hall. }
  split; [exact Hnorm|].
  unfold SideNav.isActive, stateAt. cbn [SideNav.currentPath].
  split; [by rewrite Hnorm|]. split; [by rewrite Hnorm|].
  split; [exact Hsl|]. by rewrite Hsl.
Qed.

Lemma trailing_slashes_ignored_witness :
  JS.truthy (JS.replaceTrailingSlashes "/docs/getting-started") = true
  /\ SideNav.normalizePath (Some ("/docs/getting-started" +:+ JS.slashes 3))
     = SideNav.normalizePath (Some "/docs/getting-started").
Proof.
  split; [reflexivity|].
  exact (proj1 (trailing_slashes_ignored "/docs/getting-started" "/" 3 false
                  eq_refl)).
Defined.

(** A normalised path is left alone by a second normalisation. *)
Lemma normalizePath_fixed (cp : option string) :
  SideNav.normalizePath (SideNav.normalizePath cp) = SideNav.normalizePath cp.
Proof.
  destruct cp as [p|]; [|done].
  rewrite normalizePath_Some.
  destruct (String.eqb p "/") eqn:Hp; [done|].
  rewrite normalizePath_Some.
  pose proof (replaceTrailingSlashes_no_slash p) as Hend.
  destruct (String.eqb (JS.replaceTrailingSlashes p) "/") eqn:Hq.
  - apply String.eqb_eq in Hq. rewrite Hq in Hend. done.
  - by rewrite replaceTrailingSlashes_fixed.
Qed.

(** Every rendered link is marked active exactly if [isActive] accepts its
    [href]. *)
Lemma allLinks_active (navItems : list SideNav.NavEntry) (s : SideNav.State)
    (l : SideNav.LinkView) :
  l ∈ SideNavLinks.allLinks (SideNav.render navItems s) ->
  SideNav.linkActive l = SideNav.isActive s (SideNav.linkHref l).
Proof.
  unfold SideNavLinks.allLinks, SideNav.render. simpl.
  induction navItems as [|entry navItems IH]; [by intros ?%not_elem_of_nil|].
  simpl. intros [Hl|Hl]%elem_of_app; [|by apply IH].
  destruct entry as [item|g]; simpl in Hl.
  - by apply list_elem_of_singleton in Hl as ->.
  - apply list_elem_of_fmap in Hl as (item & -> & _). done.
Qed.

Lemma findActiveLink_Some (anchors : list string) (cp : option string)
    (k : nat) :
  SideNavLinks.findActiveLink anchors cp = Some k ->
  exists p q, cp = Some p /\ JS.truthy p = true
              /\ SideNav.normalizePath cp = Some q
              /\ anchors !! k = Some q
              /\ forall j h, anchors !! j = Some h -> j < k -> h <> q.
Proof.
  unfold SideNavLinks.findActiveLink.
  destruct cp as [p|]; [|done].
  destruct (JS.truthy p) eqn:Hp; [|done].
  destruct (SideNav.normalizePath (Some p)) as [q|] eqn:Hq; [|done].
  destruct (list_find (fun h => h = q) anchors) as [[j y]|] eqn:Hfind; [|done].
  intros [= <-]. apply list_find_Some in Hfind as (Hj & -> & Hmin).
  exists p, q. do 4 (split; [done|]). intros j' h Hh Hlt. by eapply Hmin.
Qed.

Lemma findActiveLink_target (navItems : list SideNav.NavEntry)
    (s : SideNav.State) (rest : list string) (k : nat)
    (Hfound :
       SideNavLinks.findActiveLink
         (map SideNav.linkHref
            (SideNavLinks.allLinks (SideNav.render navItems s)) ++ rest)
         (SideNav.currentPath s) = Some k)
    (Hk : k < length (SideNavLinks.allLinks (SideNav.render navItems s))) :
  exists l,
    SideNavLinks.allLinks (SideNav.render navItems s) !! k = Some l
    /\ SideNav.linkActive l = true
    /\ SideNav.normalizePath (SideNav.currentPath s)
       = Some (SideNav.linkHref l)
    /\ forall j l',
        SideNavLinks.allLinks (SideNav.render navItems s) !! j = Some l' ->
        j < k -> SideNav.linkActive l' = true ->
        SideNav.normalizePath (Some (SideNav.linkHref l'))
        <> Some (SideNav.linkHref l').
Proof.
  apply findActiveLink_Some in Hfound
    as (p & q & Hcp & Hp & Hq & Hkq & Hmin).
  rewrite lookup_app_l in Hkq by (by rewrite length_map).
  rewrite list_lookup_fmap in Hkq.
  destruct (SideNavLinks.allLinks (SideNav.render navItems s) !! k)
    as [l|] eqn:Hl; [|done].
  injection Hkq as Hkq. exists l. split; [done|].
  pose proof (normalizePath_fixed (SideNav.currentPath s)) as Hidem.
  split; [|split; [by rewrite Hq, Hkq|]].
  - rewrite (allLinks_active navItems s l) by (by eapply list_elem_of_lookup_2).
    unfold SideNav.isActive. apply strictEq_eq.
    rewrite Hkq, <- Hq. by rewrite Hidem.
  - intros j l' Hl' Hlt Hact Hnormal.
    rewrite (allLinks_active navItems s l') in Hact
      by (by eapply list_elem_of_lookup_2).
    apply strictEq_eq in Hact. rewrite Hq, Hnormal in Hact.
    injection Hact as Hact.
    apply (Hmin j (SideNav.linkHref l')); [|done..].
    rewrite lookup_app_l by (rewrite length_map; lia).
    by rewrite list_lookup_fmap, Hl'.
Qed.

(** The anchor that the scroll effect looks up, when it is one of the links
    of the navigation, is a link marked active: the first one whose [href]
    is the normalised current path, character by character.  The active
    links before it are links whose [href] is not in normal form.  [rest]
    are the [href]s of the anchors under [aside nav] that follow the
    navigation in the document. *)
Theorem scroll_target_is_active (navItems : list SideNav.NavEntry)
    (s : SideNav.State) (rest : list string) (k : nat)
    (Hfound :
       SideNavLinks.findActiveLink
         (map SideNav.linkHref
            (SideNavLinks.allLinks (SideNav.render navItems s)) ++ rest)
         (SideNav.currentPath s) = Some k)
    (Hk : k < length (SideNavLinks.allLinks (SideNav.render navItems s))) :
  exists l,
    SideNavLinks.allLinks (SideNav.render navItems s) !! k = Some l
    /\ SideNav.linkActive l = true
    /\ SideNav.normalizePath (SideNav.currentPath s)
       = Some (SideNav.linkHref l)
    /\ forall j l',
        SideNavLinks.allLinks (SideNav.render navItems s) !! j = Some l' ->
        j < k -> SideNav.linkActive l' = true ->
        SideNav.normalizePath (Some (SideNav.linkHref l'))
        <> Some (SideNav.linkHref l').
Proof. by apply (findActiveLink_target navItems s rest). Qed.

Lemma scroll_target_is_active_witness :
  SideNavLinks.findActiveLink
    (map SideNav.linkHref
       (SideNavLinks.allLinks
          (SideNav.render SideNavLinks.navigationItems
             (stateAt false "/docs/app/core/routing/")))
     ++ ["#routing"])
    (SideNav.currentPath (stateAt false "/docs/app/core/routing/")) = Some 6
  /\ exists l,
       SideNavLinks.allLinks
         (SideNav.render SideNavLinks.navigationItems
            (stateAt false "/docs/app/core/routing/")) !! 6 = Some l
       /\ SideNav.linkActive l = true.
Proof.
  split; [reflexivity|].
  assert (6 < length (SideNavLinks.allLinks
                        (SideNav.render SideNavLinks.navigationItems
                           (stateAt false "/docs/app/core/routing/"))))
    as Hk by (vm_compute; lia).
  destruct (scroll_target_is_active SideNavLinks.navigationItems
              (stateAt false "/docs/app/core/routing/") ["#routing"] 6
              eq_refl Hk)
    as (l & Hl & Hact & _).
  exists l. by split.
Defined.

(** Conversely, when the current path is not empty, an active link whose
    [href] is in normal form is found by the scroll effect, unless an equal
    [href] comes first; an active link whose [href] is not in normal form
    (it ends with a slash and is not the root path) is never the one
    found. *)
Theorem scroll_finds_normal_active_link (navItems : list SideNav.NavEntry)
    (s : SideNav.State) (rest : list string) (k : nat)
    (l : SideNav.LinkView) (p : string)
    (Hl : SideNavLinks.allLinks (SideNav.render navItems s) !! k = Some l)
    (Hact : SideNav.linkActive l = true)
    (Hcp : SideNav.currentPath s = Some p)
    (Hp : JS.truthy p = true) :
  let found :=
    SideNavLinks.findActiveLink
      (map SideNav.linkHref
         (SideNavLinks.allLinks (SideNav.render navItems s)) ++ rest)
      (SideNav.currentPath s) in
  (SideNav.normalizePath (Some (SideNav.linkHref l))
     = Some (SideNav.linkHref l) ->
   exists j, found = Some j /\ j <= k)
  /\ (SideNav.normalizePath (Some (SideNav.linkHref l))
        <> Some (SideNav.linkHref l) ->
      found <> Some k).
Proof.
  intros found.
  pose proof (lookup_lt_Some _ _ _ Hl) as Hlt.
  split.
  - intros Hnormal.
    rewrite (allLinks_active navItems s l) in Hact
      by (by eapply list_elem_of_lookup_2).
    apply strictEq_eq in Hact. rewrite Hnormal in Hact.
    subst found. unfold SideNavLinks.findActiveLink.
    rewrite Hcp, Hp. rewrite Hcp in Hact. rewrite Hact.
    set (anchors := map SideNav.linkHref
                      (SideNavLinks.allLinks (SideNav.render navItems s))
                    ++ rest).
    assert (anchors !! k = Some (SideNav.linkHref l)) as Hk.
    { subst anchors. rewrite lookup_app_l by (by rewrite length_map).
      by rewrite list_lookup_fmap, Hl. }
    destruct (list_find (fun h => h = SideNav.linkHref l) anchors)
      as [[j y]|] eqn:Hfind.
    + exists j. split; [done|].
      apply list_find_Some in Hfind as (_ & _ & Hmin).
      destruct (decide (j <= k)) as [|Hgt]; [done|].
      destruct (Hmin k (SideNav.linkHref l) Hk); [lia | done].
    + apply list_find_None in Hfind. rewrite Forall_forall in Hfind.
      destruct (Hfind (SideNav.linkHref l)); [|done].
      by eapply list_elem_of_lookup_2.
  - intros Hnot Hfound. subst found.
    destruct (findActiveLink_target navItems s rest k Hfound Hlt)
      as (l' & Hl' & _ & Hnorm & _).
    rewrite Hl in Hl'. injection Hl' as <-.
    apply Hnot. rewrite <- Hnorm. apply normalizePath_fixed.
Qed.

Lemma scroll_finds_normal_active_link_witness :
  exists j,
    SideNavLinks.findActiveLink
      (map SideNav.linkHref
         (SideNavLinks.allLinks
            (SideNav.render SideNavLinks.navigationItems
               (stateAt false "/docs/app/core/routing/")))
       ++ ["#routing"])
      (SideNav.currentPath (stateAt false "/docs/app/core/routing/"))
    = Some j /\ j <= 6.
Proof.
  apply (proj1 (scroll_finds_normal_active_link SideNavLinks.navigationItems
                  (stateAt false "/docs/app/core/routing/") ["#routing"] 6
                  {| SideNav.linkHref := "/docs/app/core/routing";
                     SideNav.linkLabel := "Routing";
                     SideNav.linkActive := true |}
                  "/docs/app/core/routing/" eq_refl eq_refl eq_refl eq_refl)).
  reflexivity.
Defined.

(** * Further properties of the table of contents *)

Lemma slugChar_facts (c : ascii) :
  isSlugChar c = true ->
  JS.lowerChar c = c
  /\ JS.isWord c || JS.isSpace c || JS.isHyphen c = true
  /\ JS.isSpace c = false.
Proof.
  destruct c as [[] [] [] [] [] [] [] []]; vm_compute; intros H;
    first [discriminate H | by repeat split].
Qed.

Lemma lowerChar_idempotent (c : ascii) :
  JS.lowerChar (JS.lowerChar c) = JS.lowerChar c.
Proof. by destruct c as [[] [] [] [] [] [] [] []]. Qed.

Lemma toLowerCase_idempotent (t : string) :
  JS.toLowerCase (JS.toLowerCase t) = JS.toLowerCase t.
Proof.
  induction t as [|c r IH]; [done|].
  simpl. by rewrite lowerChar_idempotent, IH.
Qed.

(** The three steps of the slug leave a string of slug characters alone. *)
Lemma slug_steps_fixed (s : string) :
  everyChar isSlugChar s = true ->
  JS.toLowerCase s = s
  /\ JS.stripNonWord s = s
  /\ forall inRun, JS.hyphenateFrom inRun s = s.
Proof.
  induction s as [|c r IH]; [done|].
  simpl. intros [Hc Hr]%andb_true_iff.
  destruct (slugChar_facts c Hc) as (Hlow & Hkeep & Hsp).
  destruct (IH Hr) as (IH1 & IH2 & IH3).
  rewrite Hlow, Hkeep, Hsp, IH1, IH2. split; [done|]. split; [done|].
  intros inRun. by rewrite IH3.
Qed.

Lemma orEmpty_Some (s : string) : JS.orEmpty (Some s) = s.
Proof. by destruct s. Qed.

(** The slug of a slug is the slug itself, and the slug does not depend on
    the case of the letters of the text. *)
Theorem slugify_idempotent (t : option string) (u : string) :
  ArticleToc.slugify (Some (ArticleToc.slugify t)) = ArticleToc.slugify t
  /\ ArticleToc.slugify (Some (JS.toLowerCase u)) = ArticleToc.slugify (Some u).
Proof.
  split.
  - destruct (slug_steps_fixed _ (slugify_alphabet t)) as (H1 & H2 & H3).
    unfold ArticleToc.slugify at 1. cbn [option_map].
    rewrite orEmpty_Some, H1, H2. apply H3.
  - unfold ArticleToc.slugify. cbn [option_map].
    by rewrite toLowerCase_idempotent.
Qed.

Lemma handleClick_found (x : string) (w : DOM.World) (el : nat) (u : DOM.URL) :
  DOM.getElementById (DOM.document w) x = Some el ->
  DOM.currentURL (DOM.history w) = Some u ->
  ArticleToc.handleClick x w
  = {| DOM.document := DOM.document w;
       DOM.history :=
         {| DOM.entries :=
              take (S (DOM.index (DOM.history w))) (DOM.entries (DOM.history w))
              ++ [{| DOM.base := DOM.base u; DOM.fragment := Some x |}];
            DOM.index := S (DOM.index (DOM.history w)) |};
       DOM.console := DOM.console w;
       DOM.scrolls := DOM.scrolls w ++ [el] |}.
Proof.
  intros Hel Hu. unfold ArticleToc.handleClick, DOM.pushStateFragment.
  by rewrite Hel, Hu.
Qed.

(** Clicks are not merged: [n + 1] clicks in a row on the entry of an
    existing heading leave the history with the entries up to the former
    current one followed by [n + 1] equal entries for the hash, the last of
    them current, and ask for [n + 1] scrolls to the same element.  The
    document and the console are untouched. *)
Theorem repeated_clicks_push_entries (n : nat) (x : string) (w : DOM.World)
    (el : nat) (u : DOM.URL)
    (Hel : DOM.getElementById (DOM.document w) x = Some el)
    (Hu : DOM.currentURL (DOM.history w) = Some u) :
  let w' := clickTimes (S n) x w in
  let target := {| DOM.base := DOM.base u; DOM.fragment := Some x |} in
  DOM.entries (DOM.history w')
    = take (S (DOM.index (DOM.history w))) (DOM.entries (DOM.history w))
      ++ replicate (S n) target
  /\ DOM.index (DOM.history w') = DOM.index (DOM.history w) + S n
  /\ DOM.currentURL (DOM.history w') = Some target
  /\ DOM.scrolls w' = DOM.scrolls w ++ replicate (S n) el
  /\ DOM.document w' = DOM.document w
  /\ DOM.console w' = DOM.console w.
Proof.
  intros w' target. subst w'.
  pose proof (lookup_lt_Some _ _ _ Hu) as Hlt.
  assert (length (take (S (DOM.index (DOM.history w)))
                    (DOM.entries (DOM.history w)))
          = S (DOM.index (DOM.history w))) as Hlen
    by (rewrite length_take; lia).
  induction n as [|n IH].
  - unfold clickTimes. simpl Nat.iter.
    rewrite (handleClick_found x w el u Hel Hu). simpl.
    split; [done|]. split; [lia|]. split; [|done].
    unfold DOM.currentURL. simpl.
    rewrite lookup_app_r by lia. by rewrite Hlen, Nat.sub_diag.
  - destruct IH as (He & Hi & Hc & Hs & Hd & Hco).
    unfold clickTimes in *. rewrite Nat.iter_succ.
    set (w1 := Nat.iter (S n) (ArticleToc.handleClick x) w) in *.
    rewrite (handleClick_found x w1 el target); [|by rewrite Hd|done].
    unfold DOM.currentURL.
    cbn [DOM.entries DOM.index DOM.history DOM.scrolls DOM.document
         DOM.console DOM.base DOM.fragment].
    rewrite He, Hi, Hs, Hd, Hco.
    fold target.
    assert (length (take (S (DOM.index (DOM.history w)))
                      (DOM.entries (DOM.history w))
                    ++ replicate (S n) target)
            = S (DOM.index (DOM.history w) + S n)) as Hall
      by (rewrite length_app, Hlen, length_replicate; lia).
    rewrite take_ge by lia.
    split; [|split; [lia|split; [|split; [|done]]]].
    + rewrite <- app_assoc. f_equal.
      exact (eq_sym (replicate_S_end (S n) target)).
    + rewrite lookup_app_r by lia. by rewrite Hall, Nat.sub_diag.
    + rewrite <- app_assoc. f_equal.
      exact (eq_sym (replicate_S_end (S n) el)).
Qed.

Lemma repeated_clicks_push_entries_witness :
  DOM.getElementById (DOM.document (worldOf explicitId_doc)) "intro" = Some 1
  /\ DOM.index (DOM.history (clickTimes 3 "intro" (worldOf explicitId_doc)))
     = DOM.index (DOM.history (worldOf explicitId_doc)) + 3.
Proof.
  split; [reflexivity|].
  exact (proj1 (proj2
    (repeated_clicks_push_entries 2 "intro" (worldOf explicitId_doc) 1
       {| DOM.base := "https://docs.example/docs/getting-started";
          DOM.fragment := None |} eq_refl eq_refl))).
Defined.

Lemma getElementById_empty (doc : list DOM.Element) :
  DOM.getElementById doc EmptyString = None.
Proof. reflexivity. Qed.

(** A click never writes to the console or changes the document, and a click
    on an entry whose id is empty changes nothing at all: no scroll, no
    history entry, no change of the component. *)
Theorem click_on_empty_id_is_inert (articleId : string) (w : DOM.World)
    (es : list ArticleToc.Event) (k : nat) (item : ArticleToc.TocItem)
    (Hitem :
       ArticleToc.tocItems
         (ArticleToc.hooks (ArticleToc.inst (ArticleToc.run articleId w es)))
         !! k = Some item)
    (Hid : ArticleToc.id item = EmptyString) :
  ArticleToc.step articleId (ArticleToc.run articleId w es) (ArticleToc.Click k)
    = ArticleToc.run articleId w es
  /\ (forall x w0, ArticleToc.handleClick EmptyString w0 = w0
                   /\ DOM.console (ArticleToc.handleClick x w0) = DOM.console w0
                   /\ DOM.document (ArticleToc.handleClick x w0)
                      = DOM.document w0).
Proof.
  split.
  - generalize dependent (ArticleToc.run articleId w es). intros s Hitem.
    simpl. rewrite Hitem, Hid. unfold ArticleToc.handleClick.
    rewrite getElementById_empty. by destruct s.
  - intros x w0. split; [done|].
    unfold ArticleToc.handleClick.
    by destruct (DOM.getElementById (DOM.document w0) x).
Qed.

Lemma click_on_empty_id_is_inert_witness :
  ArticleToc.step "tabi-article"
    (ArticleToc.run "tabi-article" (worldOf punctuation_doc) [ArticleToc.Mount])
    (ArticleToc.Click 1)
  = ArticleToc.run "tabi-article" (worldOf punctuation_doc) [ArticleToc.Mount].
Proof.
  exact (proj1
    (click_on_empty_id_is_inert "tabi-article" (worldOf punctuation_doc)
       [ArticleToc.Mount] 1
       {| ArticleToc.id := EmptyString; ArticleToc.text := "?!";
          ArticleToc.level := JS.Int 2 |} eq_refl eq_refl)).
Defined.

(** [getElementById] finds an element as soon as one carries the id, and
    the one it finds is the first. *)
Lemma getElementById_first (doc : list DOM.Element) (x : string)
    (h : nat) (e : DOM.Element) :
  JS.truthy x = true -> doc !! h = Some e -> DOM.id e = x ->
  exists el, DOM.getElementById doc x = Some el /\ el <= h
             /\ ((forall j e', j < h -> doc !! j = Some e' -> DOM.id e' <> x)
                 -> el = h).
Proof.
  intros Hx Hh Hid. unfold DOM.getElementById. rewrite Hx.
  destruct (list_find (fun e => DOM.id e = x) doc) as [[j y]|] eqn:Hfind.
  - apply list_find_Some in Hfind as (Hj & Hy & Hmin).
    exists j. split; [done|].
    assert (j <= h) as Hle.
    { destruct (decide (j <= h)) as [|Hgt]; [done|].
      destruct (Hmin h e Hh); [lia | done]. }
    split; [done|]. intros Hfirst.
    destruct (decide (j = h)) as [|Hne]; [done|].
    destruct (Hfirst j y); [lia | done..].
  - apply list_find_None in Hfind. rewrite Forall_forall in Hfind.
    destruct (Hfind e); [by eapply list_elem_of_lookup_2 | done].
Qed.

(** In every state the component reaches, a click on an entry whose id is
    not empty finds a target: the first element of the document with that
    id.  The target is the entry's own heading or an element before it, and
    it is the heading when no element before the heading has the same id. *)
Theorem click_scrolls_to_first_with_id (articleId : string) (w : DOM.World)
    (es : list ArticleToc.Event) (k : nat) (item : ArticleToc.TocItem)
    (Hitem :
       ArticleToc.tocItems
         (ArticleToc.hooks (ArticleToc.inst (ArticleToc.run articleId w es)))
         !! k = Some item)
    (Hid : JS.truthy (ArticleToc.id item) = true) :
  let s := ArticleToc.run articleId w es in
  exists h el,
    ArticleToc.observed (ArticleToc.inst s) !! k = Some h
    /\ DOM.getElementById (DOM.document (ArticleToc.world s))
         (ArticleToc.id item) = Some el
    /\ el <= h
    /\ DOM.scrolls
         (ArticleToc.world (ArticleToc.step articleId s (ArticleToc.Click k)))
       = DOM.scrolls (ArticleToc.world s) ++ [el]
    /\ ((forall j e', j < h ->
           DOM.document (ArticleToc.world s) !! j = Some e' ->
           DOM.id e' <> ArticleToc.id item)
        -> el = h).
Proof.
  intros s. destruct (run_invariant articleId w es) as (_ & Hobs & _).
  fold s in Hobs, Hitem. clearbody s.
  destruct (Forall2_lookup_r _ _ _ _ _ Hobs Hitem)
    as (h & Hh & e & He & Heid).
  destruct (getElementById_first _ _ h e Hid He Heid)
    as (el & Hel & Hle & Hfirst).
  exists h, el. split; [done|]. split; [done|]. split; [done|].
  split; [|done].
  simpl. rewrite Hitem. simpl. unfold ArticleToc.handleClick. by rewrite Hel.
Qed.

Lemma click_scrolls_to_first_with_id_witness :
  exists h el,
    ArticleToc.observed
      (ArticleToc.inst
         (ArticleToc.run "tabi-article" (worldOf twinHeadings_doc)
            [ArticleToc.Mount])) !! 1 = Some h
    /\ DOM.getElementById
         (DOM.document
            (ArticleToc.world
               (ArticleToc.run "tabi-article" (worldOf twinHeadings_doc)
                  [ArticleToc.Mount]))) "intro" = Some el
    /\ el <= h.
Proof.
  destruct (click_scrolls_to_first_with_id "tabi-article"
              (worldOf twinHeadings_doc) [ArticleToc.Mount] 1
              {| ArticleToc.id := "intro"; ArticleToc.text := "Intro";
                 ArticleToc.level := JS.Int 2 |} eq_refl eq_refl)
    as (h & el & Hh & Hel & Hle & _).
  exists h, el. by repeat split.
Defined.

Lemma itemOf_level (e : DOM.Element) :
  DOM.isHeadingTag (DOM.tagName e) = true ->
  levelInRange (ArticleToc.itemOf (ArticleToc.ensureId e)).
Proof.
  intros Htag. destruct (heading_level _ Htag) as (n & Hn & _ & Hlevel).
  exists n. split; [done|]. rewrite ensureId_setId. exact Hlevel.
Qed.

Lemma effect_levels (articleId : string) (w : DOM.World)
    (i : ArticleToc.Instance) :
  Forall levelInRange (ArticleToc.tocItems (ArticleToc.hooks i)) ->
  Forall levelInRange
    (ArticleToc.tocItems (ArticleToc.hooks (ArticleToc.effect articleId w i).2)).
Proof.
  intros Hi.
  destruct (DOM.getElementById (DOM.document w) articleId) as [a|] eqn:Ha.
  - destruct (effect_found articleId w i a Ha) as (doc' & items & -> & Hrel & _).
    simpl. apply Forall_forall. intros item Hin.
    apply list_elem_of_lookup_1 in Hin as [k Hk].
    destruct (Forall2_lookup_r _ _ _ _ _ Hrel Hk) as (h & Hh & e & He & ->).
    assert (h ∈ DOM.querySelectorAllHeadings (DOM.document w) a) as Hin
      by (by eapply list_elem_of_lookup_2).
    destruct (querySelectorAllHeadings_lookup _ _ _ Hin) as (e' & He' & Htag).
    rewrite He in He'. injection He' as <-. by apply itemOf_level.
  - unfold ArticleToc.effect. by rewrite Ha.
Qed.

(** In every state the component reaches, every record of the outline has a
    level from 1 to 6, so every entry is indented by 0 to 5 steps; the
    indentation is never negative and never not a number. *)
Theorem outline_levels_in_range (articleId : string) (w : DOM.World)
    (es : list ArticleToc.Event) :
  let st := ArticleToc.hooks (ArticleToc.inst (ArticleToc.run articleId w es)) in
  Forall levelInRange (ArticleToc.tocItems st)
  /\ Forall
       (fun item =>
          exists n, n <= 5
                    /\ ArticleToc.indentSteps (ArticleToc.renderItem st item)
                       = JS.Int (Z.of_nat n))
       (ArticleToc.tocItems st).
Proof.
  intros st.
  assert (Forall levelInRange (ArticleToc.tocItems st)) as Hlev.
  { subst st. induction es as [|e es IH] using rev_ind; [constructor|].
    rewrite toc_run_snoc.
    generalize dependent (ArticleToc.run articleId w es). intros s IH.
    destruct e as [|batch|k]; simpl.
    - destruct (ArticleToc.mounted (ArticleToc.inst s)); [done|].
      pose proof (effect_levels articleId (ArticleToc.world s)
                    (ArticleToc.inst s) IH) as Heff.
      by destruct (ArticleToc.effect articleId (ArticleToc.world s)
                     (ArticleToc.inst s)).
    - destruct (ArticleToc.deliverable (ArticleToc.inst s) batch); [|done].
      simpl. by rewrite observerCallback_tocItems.
    - by destruct (ArticleToc.tocItems (ArticleToc.hooks (ArticleToc.inst s)) !! k). }
  split; [exact Hlev|].
  eapply Forall_impl; [exact Hlev|].
  intros item (n & Hn & Hl). exists (n - 1). split; [lia|].
  simpl. rewrite Hl. simpl. f_equal. lia.
Qed.

Lemma length_of_lookups {A : Type} (l l' : list A) :
  (forall j, is_Some (l !! j) <-> is_Some (l' !! j)) -> length l = length l'.
Proof.
  intros Hsame.
  destruct (Nat.lt_trichotomy (length l) (length l')) as [Hlt|[Heq|Hgt]];
    [|done|].
  - destruct (proj2 (Hsame (length l))) as [x Hx];
      [by apply lookup_lt_is_Some|].
    apply lookup_lt_Some in Hx. lia.
  - destruct (proj1 (Hsame (length l'))) as [x Hx];
      [by apply lookup_lt_is_Some|].
    apply lookup_lt_Some in Hx. lia.
Qed.

Lemma subtreeSize_depths (d : nat) (l l' : list DOM.Element) :
  Forall2 (fun x y => DOM.depth x = DOM.depth y) l l' ->
  DOM.subtreeSize d l = DOM.subtreeSize d l'.
Proof.
  induction 1 as [|x y l l' Hxy _ IH]; [done|].
  simpl. rewrite <- Hxy, IH. done.
Qed.

Lemma headings_after_article (doc : list DOM.Element) (a h : nat) :
  h ∈ DOM.querySelectorAllHeadings doc a -> a < h.
Proof.
  intros [Hd _]%querySelectorAllHeadings_elem.
  unfold DOM.descendants in Hd. destruct (doc !! a); [|by apply not_elem_of_nil in Hd].
  apply list_elem_of_In, in_seq in Hd. lia.
Qed.

Lemma ensureId_keeps (e : DOM.Element) :
  DOM.depth (ArticleToc.ensureId e) = DOM.depth e
  /\ DOM.tagName (ArticleToc.ensureId e) = DOM.tagName e.
Proof. by rewrite ensureId_setId. Qed.

(** A document that differs from [doc] only by ensured ids of the headings
    of the container has the same container and the same headings. *)
Lemma same_headings (doc doc' : list DOM.Element) (articleId : string)
    (a : nat) :
  DOM.getElementById doc articleId = Some a ->
  (forall j,
      doc' !! j
      = if decide (j ∈ DOM.querySelectorAllHeadings doc a)
        then ArticleToc.ensureId <$> doc !! j
        else doc !! j) ->
  DOM.getElementById doc' articleId = Some a
  /\ DOM.querySelectorAllHeadings doc' a = DOM.querySelectorAllHeadings doc a.
Proof.
  intros Hfound Hdoc.
  set (hs := DOM.querySelectorAllHeadings doc a) in *.
  assert (forall j, j <= a -> doc' !! j = doc !! j) as Hbefore.
  { intros j Hj. rewrite Hdoc, decide_False; [done|].
    intros Hin%headings_after_article. lia. }
  assert (forall j, exists o,
             doc !! j = o
             /\ (doc' !! j = o \/ doc' !! j = ArticleToc.ensureId <$> o))
    as Hrel.
  { intros j. exists (doc !! j). split; [done|]. rewrite Hdoc.
    case_decide; auto. }
  assert (length doc' = length doc) as Hlen.
  { apply length_of_lookups. intros j.
    destruct (Hrel j) as (o & Ho & [Hj|Hj]); rewrite Hj, Ho; [done|].
    by rewrite fmap_is_Some. }
  assert (Forall2 (fun x y => DOM.depth x = DOM.depth y
                              /\ DOM.tagName x = DOM.tagName y) doc doc')
    as Hsame.
  { apply Forall2_same_length_lookup. split; [done|].
    intros j x y Hx Hy. destruct (Hrel j) as (o & Ho & [Hj|Hj]);
      rewrite Hx in Ho; subst o; rewrite Hy in Hj.
    - by injection Hj as ->.
    - injection Hj as ->. by destruct (ensureId_keeps x) as [-> ->]. }
  split.
  - unfold DOM.getElementById in *.
    destruct (JS.truthy articleId); [|done].
    destruct (list_find (fun e => DOM.id e = articleId) doc)
      as [[j y]|] eqn:Hfind; [|done].
    injection Hfound as ->.
    apply list_find_Some in Hfind as (Ha & Hy & Hmin).
    assert (list_find (fun e => DOM.id e = articleId) doc' = Some (a, y))
      as ->; [|done].
    apply list_find_Some. split; [by rewrite Hbefore|]. split; [done|].
    intros j z Hz Hlt. apply (Hmin j z); [|done].
    by rewrite <- Hbefore by lia.
  - subst hs. unfold DOM.querySelectorAllHeadings, DOM.descendants.
    rewrite (Hbefore a) by done.
    destruct (doc !! a) as [ea|]; [|done].
    rewrite (subtreeSize_depths _ (drop (S a) doc') (drop (S a) doc)).
    + apply List.filter_ext. intros j. unfold DOM.isHeadingAt.
      destruct (Hrel j) as (o & Ho & [Hj|Hj]); rewrite Hj, Ho; [done|].
      destruct o as [x|]; [|done]. simpl.
      by destruct (ensureId_keeps x) as [_ ->].
    + apply Forall2_drop. apply Forall2_flip.
      eapply Forall2_impl; [exact Hsame|]. by intros x y [-> _].
Qed.

Lemma omap_same {A B : Type} (f g : A -> option B) (l : list A) :
  (forall x, x ∈ l -> f x = g x) -> omap f l = omap g l.
Proof.
  induction l as [|x l IH]; intros Hfg; [done|].
  assert (omap f l = omap g l) as Htl.
  { apply IH. intros y Hy. apply Hfg. by apply list_elem_of_further. }
  cbn [omap list_omap] in *.
  by rewrite (Hfg x (list_elem_of_here x l)), Htl.
Qed.

(** Building the outline again changes nothing: when the container exists,
    a second run of the effect on the document and the component that the
    first run left yields the same document, the same outline and the same
    observed headings.  The ids given by the first run are kept, and a
    heading whose slug is empty gets the empty id again. *)
Theorem rebuild_is_stable (articleId : string) (w : DOM.World)
    (i : ArticleToc.Instance) (a : nat)
    (Hfound : DOM.getElementById (DOM.document w) articleId = Some a) :
  let r := ArticleToc.effect articleId w i in
  ArticleToc.effect articleId r.1 r.2 = r.
Proof.
  intros r. subst r. unfold ArticleToc.effect at 2 3 4. rewrite Hfound.
  set (hs := DOM.querySelectorAllHeadings (DOM.document w) a).
  destruct (visitHeading_fold (DOM.document w) hs (DOM.document w) [])
    as [Hitems Hdoc]; [by left|].
  destruct (foldl ArticleToc.visitHeading (DOM.document w, []) hs)
    as [doc' items] eqn:Hfold.
  cbn [fst snd] in Hitems, Hdoc |- *.
  destruct (same_headings (DOM.document w) doc' articleId a Hfound Hdoc)
    as [Hfound' Hhs'].
  unfold ArticleToc.effect. cbn [DOM.document]. rewrite Hfound', Hhs'.
  fold hs.
  destruct (visitHeading_fold doc' hs doc' []) as [Hitems' Hdoc'];
    [by left|].
  destruct (foldl ArticleToc.visitHeading (doc', []) hs)
    as [doc'' items'].
  cbn [fst snd] in Hitems', Hdoc'.
  assert (doc'' = doc') as ->.
  { apply list_eq. intros j. rewrite Hdoc'. case_decide as Hj; [|done].
    rewrite Hdoc, decide_True by done.
    destruct (DOM.document w !! j) as [e|]; [|done].
    simpl. by rewrite ensureId_idempotent. }
  assert (items' = items) as ->.
  { rewrite Hitems', Hitems. f_equal. apply omap_same. intros h Hh.
    rewrite Hdoc, decide_True by done.
    destruct (DOM.document w !! h) as [e|]; [|done].
    simpl. by rewrite ensureId_idempotent. }
  done.
Qed.

Lemma rebuild_is_stable_witness :
  DOM.getElementById (DOM.document (worldOf scenarioB_doc)) "tabi-article"
    = Some 1
  /\ ArticleToc.effect "tabi-article"
       (ArticleToc.effect "tabi-article" (worldOf scenarioB_doc)
          ArticleToc.firstRender).1
       (ArticleToc.effect "tabi-article" (worldOf scenarioB_doc)
          ArticleToc.firstRender).2
     = ArticleToc.effect "tabi-article" (worldOf scenarioB_doc)
         ArticleToc.firstRender.
Proof.
  split; [reflexivity|].
  exact (rebuild_is_stable "tabi-article" (worldOf scenarioB_doc)
           ArticleToc.firstRender 1 eq_refl).
Defined.

(** * The theme toggle *)

Lemma theme_run_snoc (p : ToggleTheme.Page) (es : list ToggleTheme.Event)
    (e : ToggleTheme.Event) :
  ToggleTheme.run p (es ++ [e]) = ToggleTheme.step (ToggleTheme.run p es) e.
Proof. unfold ToggleTheme.run. by rewrite foldl_app. Qed.

Lemma class_after_toggle (cl : gset string) :
  bool_decide ("dark" ∈ cl ∪ {["dark"]}) = true
  /\ bool_decide ("dark" ∈ cl ∖ {["dark"]}) = false.
Proof.
  split.
  - apply bool_decide_eq_true, elem_of_union. right.
    by apply elem_of_singleton.
  - apply bool_decide_eq_false. rewrite elem_of_difference, elem_of_singleton.
    by intros [_ ?].
Qed.

(** What every run of the toggle keeps true. *)
Lemma theme_invariant (p : ToggleTheme.Page) (es : list ToggleTheme.Event) :
  let r := ToggleTheme.run p es in
  (ToggleTheme.mounted r.2 || existsb ToggleTheme.isClick es = true ->
   ToggleTheme.hooks r.2
   = if bool_decide ("dark" ∈ ToggleTheme.classList r.1)
     then ToggleTheme.dark else ToggleTheme.light)
  /\ (existsb ToggleTheme.isClick es = true ->
      ToggleTheme.localStorage r.1 !! "theme"
      = Some (ToggleTheme.themeName (ToggleTheme.hooks r.2)))
  /\ (existsb ToggleTheme.isClick es = false -> r.1 = p).
Proof.
  induction es as [|e es IH] using rev_ind.
  { simpl. split; [done|]. split; done. }
  rewrite theme_run_snoc, existsb_app. simpl existsb. rewrite orb_false_r.
  destruct (ToggleTheme.run p es) as [p' i'] eqn:Hrun.
  simpl in IH. destruct IH as (HA & HB & HC).
  destruct e; simpl.
  - (* the effect *)
    rewrite orb_false_r in *.
    destruct (ToggleTheme.mounted i') eqn:Hm; simpl.
    + rewrite Hm. done.
    + split; [done|]. split; [|done].
      intros Hc. rewrite (HB Hc). f_equal. f_equal.
      apply HA. by rewrite Hc.
  - (* a re-render *)
    rewrite orb_false_r in *. done.
  - (* a click *)
    rewrite !orb_true_r. split; [|split; [|done]]; intros _.
    + destruct (ToggleTheme.rendered i'); simpl;
        by rewrite ?(proj1 (class_after_toggle _)),
                   ?(proj2 (class_after_toggle _)).
    + by rewrite lookup_insert_eq.
Qed.

(** Once the button has been clicked, the theme in the component, the
    class [dark] of the document element and the stored preference agree,
    whatever the order of clicks, re-renders and the effect; once the effect
    has run, the theme in the component agrees with the class.  Without a
    click the page is not written to. *)
Theorem theme_class_storage_agree (p : ToggleTheme.Page)
    (es : list ToggleTheme.Event) :
  let r := ToggleTheme.run p es in
  let fromClass :=
    if bool_decide ("dark" ∈ ToggleTheme.classList r.1)
    then ToggleTheme.dark else ToggleTheme.light in
  (if existsb ToggleTheme.isClick es
   then ToggleTheme.hooks r.2 = fromClass
        /\ ToggleTheme.localStorage r.1 !! "theme"
           = Some (ToggleTheme.themeName fromClass)
   else r.1 = p)
  /\ (if ToggleTheme.mounted r.2
      then ToggleTheme.hooks r.2 = fromClass
      else True).
Proof.
  intros r fromClass. subst fromClass.
  destruct (theme_invariant p es) as (HA & HB & HC). fold r in HA, HB, HC.
  split.
  - destruct (existsb ToggleTheme.isClick es) eqn:Hc; [|by apply HC].
    rewrite <- HA by (by rewrite orb_true_r). split; [done | by apply HB].
  - destruct (ToggleTheme.mounted r.2) eqn:Hm; [|done]. by apply HA.
Qed.

Lemma theme_step_frame (s : ToggleTheme.Page * ToggleTheme.Instance)
    (e : ToggleTheme.Event) (c k : string) :
  c <> "dark" -> k <> "theme" ->
  (c ∈ ToggleTheme.classList (ToggleTheme.step s e).1
   <-> c ∈ ToggleTheme.classList s.1)
  /\ ToggleTheme.localStorage (ToggleTheme.step s e).1 !! k
     = ToggleTheme.localStorage s.1 !! k.
Proof.
  intros Hc Hk. destruct s as [p i]. destruct e; simpl.
  - by destruct (ToggleTheme.mounted i).
  - done.
  - rewrite lookup_insert_ne by done. split; [|done].
    destruct (ToggleTheme.rendered i); simpl.
    + rewrite elem_of_union, elem_of_singleton. split; [by intros [?|?] | by left].
    + rewrite elem_of_difference, elem_of_singleton. split; [by intros [? _] | done].
Qed.

(** The toggle touches nothing but the class [dark] and the key [theme]:
    every other class of the document element and every other key of the
    local storage are as they were, after any events. *)
Theorem theme_toggle_frame (p : ToggleTheme.Page)
    (es : list ToggleTheme.Event) (c k : string)
    (Hc : c <> "dark") (Hk : k <> "theme") :
  (c ∈ ToggleTheme.classList (ToggleTheme.run p es).1
   <-> c ∈ ToggleTheme.classList p)
  /\ ToggleTheme.localStorage (ToggleTheme.run p es).1 !! k
     = ToggleTheme.localStorage p !! k.
Proof.
  induction es as [|e es [IHc IHk]] using rev_ind; [done|].
  rewrite theme_run_snoc.
  destruct (theme_step_frame (ToggleTheme.run p es) e c k Hc Hk) as [Hc' Hk'].
  split; [by rewrite Hc' | by rewrite Hk'].
Qed.

Lemma theme_toggle_frame_witness :
  "prose" <> "dark" /\ "sidebar" <> "theme"
  /\ ToggleTheme.localStorage
       (ToggleTheme.run
          {| ToggleTheme.classList := {["prose"]};
             ToggleTheme.localStorage := {["sidebar" := "open"]} |}
          [ToggleTheme.Mount; ToggleTheme.Rerender; ToggleTheme.Click]).1
       !! "sidebar"
     = ({["sidebar" := "open"]} : gmap string string) !! "sidebar".
Proof.
  assert ("prose" <> "dark") as Hc by discriminate.
  assert ("sidebar" <> "theme") as Hk by discriminate.
  split; [exact Hc|]. split; [exact Hk|].
  exact (proj2 (theme_toggle_frame
                  {| ToggleTheme.classList := {["prose"]};
                     ToggleTheme.localStorage := {["sidebar" := "open"]} |}
                  [ToggleTheme.Mount; ToggleTheme.Rerender; ToggleTheme.Click]
                  "prose" "sidebar" Hc Hk)).
Defined.

(** After the effect and a re-render, a click flips the class [dark] and,
    once rendered, the icon; a second click after a re-render brings the
    class list back to what it was.  A click that comes before the effect has
    run always turns the dark theme on, also on a page that is dark
    already. *)
Theorem theme_toggle_flips (p : ToggleTheme.Page)
    (es : list ToggleTheme.Event) :
  let s0 := ToggleTheme.run p (es ++ [ToggleTheme.Mount; ToggleTheme.Rerender]) in
  let s1 := ToggleTheme.step (ToggleTheme.step s0 ToggleTheme.Click)
              ToggleTheme.Rerender in
  let s2 := ToggleTheme.step (ToggleTheme.step s1 ToggleTheme.Click)
              ToggleTheme.Rerender in
  bool_decide ("dark" ∈ ToggleTheme.classList s1.1)
    = negb (bool_decide ("dark" ∈ ToggleTheme.classList s0.1))
  /\ ToggleTheme.render (ToggleTheme.rendered s1.2)
     <> ToggleTheme.render (ToggleTheme.rendered s0.2)
  /\ ToggleTheme.classList s2.1 = ToggleTheme.classList s0.1
  /\ ToggleTheme.rendered s2.2 = ToggleTheme.rendered s0.2
  /\ ToggleTheme.classList (ToggleTheme.run p [ToggleTheme.Click]).1
     = ToggleTheme.classList p ∪ {["dark"]}
  /\ ToggleTheme.hooks (ToggleTheme.run p [ToggleTheme.Click]).2
     = ToggleTheme.dark.
Proof.
  intros s0 s1 s2.
  assert (ToggleTheme.rendered s0.2
          = (if bool_decide ("dark" ∈ ToggleTheme.classList s0.1)
             then ToggleTheme.dark else ToggleTheme.light)) as Hfresh.
  { subst s0.
    replace (es ++ [ToggleTheme.Mount; ToggleTheme.Rerender])
      with ((es ++ [ToggleTheme.Mount]) ++ [ToggleTheme.Rerender])
      by (by rewrite <- app_assoc).
    rewrite theme_run_snoc.
    destruct (theme_invariant p (es ++ [ToggleTheme.Mount])) as (HA & _).
    rewrite theme_run_snoc in HA |- *.
    destruct (ToggleTheme.run p es) as [p' i'].
    simpl in HA |- *. destruct (ToggleTheme.mounted i') eqn:Hm; simpl in *.
    - apply HA. by rewrite Hm.
    - by apply HA. }
  subst s1 s2. destruct s0 as [p0 i0]. simpl in Hfresh |- *.
  rewrite Hfresh.
  destruct (bool_decide ("dark" ∈ ToggleTheme.classList p0)) eqn:Hd; simpl.
  - apply bool_decide_eq_true in Hd.
    rewrite (proj2 (class_after_toggle _)).
    split; [done|]. split; [done|]. split; [|done].
    apply set_eq. intros c. rewrite elem_of_union, elem_of_difference,
      elem_of_singleton. split; [by intros [[??]| ->] | intros Hc].
    destruct (decide (c = "dark")); [by right | by left].
  - apply bool_decide_eq_false in Hd.
    rewrite (proj1 (class_after_toggle _)).
    split; [done|]. split; [done|]. split; [|done].
    apply set_eq. intros c. rewrite elem_of_difference, elem_of_union,
      elem_of_singleton. split; [by intros [[?| ->] ?] | intros Hc].
    split; [by left | by intros ->].
Qed.
